(** * COVID-19 WES/WGS quality-control notebook (Hail_COVID19weswgs.ipynb)

    A shallow embedding of the notebook's quality-control cells.  The
    notebook is glue code over the Hail library: every cell calls a Hail
    operation on a [MatrixTable] (rows = variants, columns = samples,
    entries = genotype calls).  The embedding has three layers:

    - the Hail values the cells read and write (missing values, 64-bit
      floats with NaN and infinities, wrap-around integers, structs);
    - the Hail operations the cells call ([filter_cols], [annotate_rows],
      [median], ...), written from the behaviour Hail 0.2 documents for
      them; statistical routines whose internals play no part
      ([impute_sex], PC-Relate, [is_snp], ...) are section variables;
    - the cells themselves, one definition per notebook cell, named after
      the cell's position in the notebook ([cell46] is the 47th cell,
      counting from 0, as Jupyter stores them).

    Hail evaluates lazily: a cell that assigns [mt = mt.filter_rows(...)]
    or [mt = mt.annotate_entries(...)] builds a table expression and
    returns; the rows are computed when an action (a count, an aggregate,
    a routine that reads the calls) asks for them.  The function of a cell
    gives the value of the table that the cell defines, and a [Raise] is
    the exception that evaluating this table raises.  Hail raises an error
    of field names or types in the cell itself, when the expression is
    built, and an error of evaluation (an array index out of bounds) in
    the first action that evaluates the table: for cell 117 this is the
    aggregate of cell 118.  The embedding has no schema apart from the
    fields of the rows, columns and entries, so it finds a missing field
    or a value of the wrong type where a row is evaluated. *)

From Stdlib Require Import ZArith QArith Lia Lqa.
From stdpp Require Import base option list strings gmap sorting.

Local Open Scope Z_scope.

(** ** Exceptions and the result monad *)

(** What a Hail call can raise.  [LookupError] is Python's error for a
    field that the table does not have, [IndexError] Hail's "array index
    out of bounds", [TypeError] an expression applied to a value of the
    wrong type, and [HailError] any failure inside a library routine. *)
Inductive exn :=
| LookupError (field : string)
| IndexError (index : Z) (len : nat)
| TypeError (expected : string)
| HailError (msg : string).

Inductive res (A : Type) :=
| Ok (a : A)
| Raise (e : exn).
Arguments Ok {A} a.
Arguments Raise {A} e.

Definition bind {A B} (m : res A) (f : A → res B) : res B :=
  match m with
  | Ok a => f a
  | Raise e => Raise e
  end.

Definition res_map {A B} (f : A → B) (m : res A) : res B :=
  bind m (λ a, Ok (f a)).

Notation "'let*' x := m 'in' k" := (bind m (λ x, k))
  (at level 10, x name, m at level 100, k at level 200, only parsing).
Notation "m >>= f" := (bind m f) (at level 58, left associativity).

(** The results of [f] on the elements of a list, up to the first one
    that raises. *)
Fixpoint mapM {A B} (f : A → res B) (l : list A) : res (list B) :=
  match l with
  | [] => Ok []
  | x :: l => let* y := f x in let* k := mapM f l in Ok (y :: k)
  end.

(** ** 64-bit floats

    Finite values are exact rationals (rounding and the sign of zero are
    not modelled); the infinities and NaN behave as in IEEE 754: every
    ordered comparison with NaN is false. *)
Inductive float64 :=
| FNum (q : Q)
| FPosInf
| FNegInf
| FNaN.

Definition fcmp (a b : float64) : option comparison :=
  match a, b with
  | FNaN, _ | _, FNaN => None
  | FNum x, FNum y => Some (x ?= y)%Q
  | FNegInf, FNegInf | FPosInf, FPosInf => Some Eq
  | FNegInf, _ | _, FPosInf => Some Lt
  | FPosInf, _ | _, FNegInf => Some Gt
  end.

Definition fle (a b : float64) : bool :=
  match fcmp a b with Some Lt | Some Eq => true | _ => false end.
Definition flt (a b : float64) : bool :=
  match fcmp a b with Some Lt => true | _ => false end.
Definition fge (a b : float64) : bool := fle b a.
Definition fgt (a b : float64) : bool := flt b a.

Definition fneg (a : float64) : float64 :=
  match a with
  | FNum x => FNum (- x)
  | FPosInf => FNegInf
  | FNegInf => FPosInf
  | FNaN => FNaN
  end.

Definition fadd (a b : float64) : float64 :=
  match a, b with
  | FNaN, _ | _, FNaN => FNaN
  | FNum x, FNum y => FNum (x + y)
  | FPosInf, FNegInf | FNegInf, FPosInf => FNaN
  | FPosInf, _ | _, FPosInf => FPosInf
  | FNegInf, _ | _, FNegInf => FNegInf
  end.

Definition fsub (a b : float64) : float64 := fadd a (fneg b).

Definition finf (sign : comparison) : float64 :=
  match sign with Gt => FPosInf | Lt => FNegInf | Eq => FNaN end.

Definition fsign (a : float64) : option comparison := fcmp a (FNum 0).

Definition fsign_mul (s t : comparison) : comparison :=
  match s, t with
  | Eq, _ | _, Eq => Eq
  | Gt, Gt | Lt, Lt => Gt
  | _, _ => Lt
  end.

Definition fmul (a b : float64) : float64 :=
  match a, b with
  | FNum x, FNum y => FNum (x * y)
  | _, _ =>
      match fsign a, fsign b with
      | Some s, Some t => finf (fsign_mul s t)
      | _, _ => FNaN
      end
  end.

(** Division by a zero divisor gives an infinity of the dividend's sign,
    and NaN for [0 / 0]. *)
Definition fdiv (a b : float64) : float64 :=
  match a, b with
  | FNaN, _ | _, FNaN => FNaN
  | FNum x, FNum y =>
      if Qeq_bool y 0 then finf (x ?= 0)%Q else FNum (x / y)
  | FNum _, _ => FNum 0
  | _, FNum y =>
      match fsign a, (y ?= 0)%Q with
      | Some s, Lt => finf (fsign_mul s Lt)
      | Some s, _ => finf s
      | None, _ => FNaN
      end
  | _, _ => FNaN
  end.

Definition float_of_Z (z : Z) : float64 := FNum (inject_Z z).

(** ** Fixed-width integers: Hail's [int32] and [int64] wrap around. *)
Definition wrap (bits : Z) (z : Z) : Z :=
  (z + 2 ^ (bits - 1)) mod 2 ^ bits - 2 ^ (bits - 1).
Definition wrap32 : Z → Z := wrap 32.
Definition wrap64 : Z → Z := wrap 64.

(** ** Calls

    A genotype call is the list of its allele indices (0 = reference);
    its ploidy is the length of the list. *)
Definition call := list nat.

Definition n_alt_alleles (c : call) : Z :=
  Z.of_nat (length (filter (λ a, a ≠ 0%nat) c)).

Definition is_hom_ref (c : call) : bool :=
  match c with
  | [a] => bool_decide (a = 0%nat)
  | [a; b] => bool_decide (a = 0%nat) && bool_decide (b = 0%nat)
  | _ => false
  end.

Definition is_het (c : call) : bool :=
  match c with
  | [a; b] => bool_decide (a ≠ b)
  | _ => false
  end.

Definition is_hom_var (c : call) : bool :=
  match c with
  | [a] => bool_decide (a ≠ 0%nat)
  | [a; b] => bool_decide (a ≠ 0%nat) && bool_decide (a = b)
  | _ => false
  end.

(** ** Values and structs

    A Hail expression evaluates to a value or to "missing" ([None]).  A
    struct maps field names to possibly missing values; the fields of a
    table are a [gmap], a struct nested inside a value is an association
    list. *)
#[warnings="-register-all"]
Inductive val :=
| VBool (b : bool)
| VInt (z : Z)
| VFloat (f : float64)
| VStr (s : string)
| VCall (c : call)
| VLocus (contig : string) (pos : Z)
| VArray (l : list (option val))
| VSet (l : list val)
| VStruct (fs : list (string * option val)).

Abbreviation struct := (gmap string (option val)).

(** *** Field access

    [getattr] is Python's [mt.f] on the fields of a table: it raises when
    the table has no such field.  [getfield] selects a field of a
    struct-valued expression; a missing struct has missing fields. *)
Definition getattr (s : struct) (f : string) : res (option val) :=
  match s !! f with
  | Some v => Ok v
  | None => Raise (LookupError f)
  end.

Fixpoint assoc (f : string) (fs : list (string * option val)) : option (option val) :=
  match fs with
  | [] => None
  | (g, v) :: fs => if decide (f = g) then Some v else assoc f fs
  end.

Definition getfield (f : string) (v : option val) : res (option val) :=
  match v with
  | None => Ok None
  | Some (VStruct fs) =>
      match assoc f fs with
      | Some x => Ok x
      | None => Raise (LookupError f)
      end
  | Some _ => Raise (TypeError "struct")
  end.

(** Typed views of a possibly missing value. *)
Definition as_bool (v : option val) : res (option bool) :=
  match v with
  | None => Ok None
  | Some (VBool b) => Ok (Some b)
  | Some _ => Raise (TypeError "bool")
  end.

Definition as_int (v : option val) : res (option Z) :=
  match v with
  | None => Ok None
  | Some (VInt z) => Ok (Some z)
  | Some _ => Raise (TypeError "int")
  end.

(** Numeric promotion: an integer operand of a float operation is
    converted to [float64]. *)
Definition as_float (v : option val) : res (option float64) :=
  match v with
  | None => Ok None
  | Some (VFloat f) => Ok (Some f)
  | Some (VInt z) => Ok (Some (float_of_Z z))
  | Some _ => Raise (TypeError "float64")
  end.

Definition as_str (v : option val) : res (option string) :=
  match v with
  | None => Ok None
  | Some (VStr s) => Ok (Some s)
  | Some _ => Raise (TypeError "str")
  end.

Definition as_call (v : option val) : res (option call) :=
  match v with
  | None => Ok None
  | Some (VCall c) => Ok (Some c)
  | Some _ => Raise (TypeError "call")
  end.

Definition as_array (v : option val) : res (option (list (option val))) :=
  match v with
  | None => Ok None
  | Some (VArray l) => Ok (Some l)
  | Some _ => Raise (TypeError "array")
  end.

(** A Python value given where an expression is expected becomes a
    literal.  Hail cannot impute the type of [None], as the value itself
    or inside an array, a set or a struct, and the call that was given the
    value raises [TypeError]. *)
Fixpoint complete (v : val) : bool :=
  match v with
  | VArray l => forallb (λ o, match o with Some x => complete x | None => false end) l
  | VSet l => forallb complete l
  | VStruct fs =>
      forallb (λ f, match f with (_, Some x) => complete x | (_, None) => false end) fs
  | _ => true
  end.

Definition to_expr (v : option val) : res (option val) :=
  match v with
  | Some x => if complete x then Ok v else Raise (TypeError "expression")
  | None => Raise (TypeError "expression")
  end.

(** *** Expression operators *)

(** [hl.len] of an array or a set. *)
Definition hl_len (v : option val) : res (option Z) :=
  match v with
  | None => Ok None
  | Some (VArray l) => Ok (Some (Z.of_nat (length l)))
  | Some (VSet l) => Ok (Some (Z.of_nat (length l)))
  | Some _ => Raise (TypeError "collection")
  end.

(** [a[i]] on an array: out of range raises, a missing array is missing. *)
Definition hl_index (v : option val) (i : nat) : res (option val) :=
  let* a := as_array v in
  match a with
  | None => Ok None
  | Some l =>
      match l !! i with
      | Some x => Ok x
      | None => Raise (IndexError (Z.of_nat i) (length l))
      end
  end.

(** A binary operator is missing as soon as one operand is. *)
Definition lift2 {A B C} (f : A → B → C) (x : option A) (y : option B) : option C :=
  match x, y with
  | Some a, Some b => Some (f a b)
  | _, _ => None
  end.

Definition hl_is_defined {A} (v : option A) : option bool := Some (bool_decide (is_Some v)).
Definition hl_is_missing {A} (v : option A) : option bool := Some (bool_decide (v = None)).

(** Hail's [&] and [|] are three-valued (Kleene) and do not evaluate the
    right operand when the left one decides the result. *)
Definition kand (x y : option bool) : option bool :=
  match x, y with
  | Some false, _ | _, Some false => Some false
  | Some true, Some true => Some true
  | _, _ => None
  end.

Definition kor (x y : option bool) : option bool :=
  match x, y with
  | Some true, _ | _, Some true => Some true
  | Some false, Some false => Some false
  | _, _ => None
  end.

Definition hl_and (a b : res (option bool)) : res (option bool) :=
  let* x := a in
  match x with
  | Some false => Ok (Some false)
  | _ => let* y := b in Ok (kand x y)
  end.

Definition hl_or (a b : res (option bool)) : res (option bool) :=
  let* x := a in
  match x with
  | Some true => Ok (Some true)
  | _ => let* y := b in Ok (kor x y)
  end.

Definition hl_not (x : option bool) : option bool := negb <$> x.

(** [hl.sum] of an [array<int32>]: missing elements are skipped and the
    sum wraps around at 32 bits. *)
Definition hl_sum_int32 (v : option val) : res (option Z) :=
  let* a := as_array v in
  match a with
  | None => Ok None
  | Some l =>
      let* zs := mapM as_int l in
      Ok (Some (wrap32 (foldr Z.add 0 (omap id zs))))
  end.

(** [hl.median] of an [array<int64>]: missing elements are ignored; the
    median of no element is missing; for an even number of elements it is
    the floor of the mean of the two middle ones. *)
Definition hl_median (xs : list (option Z)) : option Z :=
  let s := merge_sort Z.le (omap id xs) in
  let n := length s in
  let mid := ((n - 1) / 2)%nat in
  if decide (n = 0%nat) then None
  else if Nat.odd n then s !! mid
  else lift2 (λ a b, wrap64 (a + b) `div` 2) (s !! mid) (s !! S mid).

(** [hl.abs] and subtraction on [int64]. *)
Definition hl_abs64 (z : Z) : Z := wrap64 (Z.abs z).
Definition hl_sub64 (a b : Z) : Z := wrap64 (a - b).

(** ** Matrix tables *)

(** A row keeps its fields and, per column, the entry of that column;
    [None] is an entry that [filter_entries] has removed. *)
Record Row := {
  row_fields : struct;
  row_entries : list (option struct)
}.

Record MatrixTable := {
  globals : struct;
  cols : list struct;
  rows : list Row
}.

Definition n_rows (mt : MatrixTable) : nat := length (rows mt).
Definition n_cols (mt : MatrixTable) : nat := length (cols mt).

(** [mt.count()] is the pair of the two. *)

(** The elements of [l] whose position is marked [true] in [mask]. *)
Fixpoint select {A} (mask : list bool) (l : list A) : list A :=
  match mask, l with
  | b :: mask, x :: l => if b then x :: select mask l else select mask l
  | _, _ => []
  end.

(** A filter keeps what its predicate makes [True] ([False] when
    [keep=False]); a missing predicate removes, whatever [keep] is. *)
Definition retain (keep : bool) (p : option bool) : bool :=
  match p with
  | Some b => bool_decide (b = keep)
  | None => false
  end.

Definition set_entries (r : Row) (es : list (option struct)) : Row :=
  {| row_fields := row_fields r; row_entries := es |}.
Definition set_fields (r : Row) (fs : struct) : Row :=
  {| row_fields := fs; row_entries := row_entries r |}.

(** Column expressions see the globals and the column's fields. *)
Definition filter_cols (p : struct → struct → res (option bool)) (keep : bool)
    (mt : MatrixTable) : res MatrixTable :=
  let* mask := mapM (λ c, res_map (retain keep) (p (globals mt) c)) (cols mt) in
  Ok {| globals := globals mt;
        cols := select mask (cols mt);
        rows := (λ r, set_entries r (select mask (row_entries r))) <$> rows mt |}.

(** Row expressions see the globals and the row, and aggregate over the
    row's entries. *)
Definition filter_rows (p : struct → Row → res (option bool)) (keep : bool)
    (mt : MatrixTable) : res MatrixTable :=
  let* mask := mapM (λ r, res_map (retain keep) (p (globals mt) r)) (rows mt) in
  Ok {| globals := globals mt; cols := cols mt; rows := select mask (rows mt) |}.

(** Entry expressions see the globals, the row's fields, the column's
    fields and the entry's fields. *)
Definition entry_expr (A : Type) : Type := struct → struct → struct → struct → res A.

Definition filter_entry (p : entry_expr (option bool)) (keep : bool)
    (g r c : struct) (e : option struct) : res (option struct) :=
  match e with
  | None => Ok None
  | Some x => let* b := p g r c x in Ok (if retain keep b then Some x else None)
  end.

Definition map_entries (f : struct → struct → struct → option struct → res (option struct))
    (mt : MatrixTable) : res MatrixTable :=
  let* rs := mapM (λ r,
               let* es := mapM (λ ce, f (globals mt) (row_fields r) ce.1 ce.2)
                               (zip (cols mt) (row_entries r)) in
               Ok (set_entries r es)) (rows mt) in
  Ok {| globals := globals mt; cols := cols mt; rows := rs |}.

Definition filter_entries (p : entry_expr (option bool)) (keep : bool) :
    MatrixTable → res MatrixTable :=
  map_entries (filter_entry p keep).

(** Annotation: the keyword arguments [name = expr, ...] are evaluated on
    the fields as they are before the call, then written; a field of the
    same name is replaced. *)
Definition write_fields (vs : list (string * option val)) (s : struct) : struct :=
  foldr (λ nv s, <[nv.1 := nv.2]> s) s vs.

Definition eval_fields {C} (kw : list (string * (C → res (option val)))) (ctx : C) :
    res (list (string * option val)) :=
  mapM (λ ne, let* v := ne.2 ctx in Ok (ne.1, v)) kw.

Definition annotate_struct {C} (kw : list (string * (C → res (option val))))
    (ctx : C) (s : struct) : res struct :=
  let* vs := eval_fields kw ctx in Ok (write_fields vs s).

Definition annotate_globals (kw : list (string * (MatrixTable → res (option val))))
    (mt : MatrixTable) : res MatrixTable :=
  let* g := annotate_struct kw mt (globals mt) in
  Ok {| globals := g; cols := cols mt; rows := rows mt |}.

Definition annotate_cols (kw : list (string * (struct * struct → res (option val))))
    (mt : MatrixTable) : res MatrixTable :=
  let* cs := mapM (λ c, annotate_struct kw (globals mt, c) c) (cols mt) in
  Ok {| globals := globals mt; cols := cs; rows := rows mt |}.

Definition annotate_rows (kw : list (string * (struct * Row → res (option val))))
    (mt : MatrixTable) : res MatrixTable :=
  let* rs := mapM (λ r, res_map (set_fields r)
                          (annotate_struct kw (globals mt, r) (row_fields r)))
                  (rows mt) in
  Ok {| globals := globals mt; cols := cols mt; rows := rs |}.

Definition annotate_entry
    (kw : list (string * (struct * struct * struct * struct → res (option val))))
    (g r c : struct) (e : option struct) : res (option struct) :=
  match e with
  | None => Ok None
  | Some x => res_map Some (annotate_struct kw (g, r, c, x) x)
  end.

Definition annotate_entries
    (kw : list (string * (struct * struct * struct * struct → res (option val)))) :
    MatrixTable → res MatrixTable :=
  map_entries (annotate_entry kw).

(** ** Tables keyed by sample

    The tables the notebook joins on the sample id ([sa], [imputed_sex],
    [pca_scores]) are used through [t[key]] only: a table is its lookup
    function, and a missing key finds nothing. *)
Definition table := string → option val.

Definition table_get (t : table) (k : option string) : option val := k ≫= t.

(** [mt.s], the column key. *)
Definition col_s (c : struct) : res (option string) := getattr c "s" >>= as_str.

(** A float literal of the notebook. *)
Definition lit (q : Q) : option float64 := Some (FNum q).

Definition vbool (b : option bool) : option val := VBool <$> b.
Definition vfloat (f : option float64) : option val := VFloat <$> f.

(** ** Aggregators *)

(** [hl.agg.mean(mt.GT.n_alt_alleles())] over the entries of a row:
    entries whose [GT] is missing are ignored. *)
Definition row_GTs (r : Row) : res (list (option call)) :=
  mapM (λ e, getattr e "GT" >>= as_call) (omap id (row_entries r)).

Definition agg_mean (xs : list (option Z)) : float64 :=
  let d := omap id xs in
  fdiv (float_of_Z (foldr Z.add 0 d)) (float_of_Z (Z.of_nat (length d))).

(** [hl.agg.fraction(p)]: the records where [p] is true among all
    records; a missing [p] counts as false, and the fraction of no record
    is missing. *)
Definition agg_fraction (bs : list (option bool)) : option float64 :=
  if decide (bs = []) then None
  else Some (fdiv (float_of_Z (Z.of_nat (length (filter (λ b, b = Some true) bs))))
                  (float_of_Z (Z.of_nat (length bs)))).

(** ** Relatedness *)

(** A row of the PC-Relate table: the keys of two samples and their
    kinship estimate. *)
Record rel := { rel_i : option string; rel_j : option string; rel_kin : float64 }.

(** The pairs [(x, y)] of [l] with [x] before [y]. *)
Fixpoint ordered_pairs {A} (l : list A) : list (A * A) :=
  match l with
  | [] => []
  | x :: l => ((λ y, (x, y)) <$> l) ++ ordered_pairs l
  end.

(** [hl.pc_relate(..., min_kinship=m)]: one row per pair of distinct
    samples, without the pairs whose kinship is lower than [m]. *)
Definition pc_relate (kin : option string → option string → float64) (min_kinship : float64)
    (keys : list (option string)) : list rel :=
  filter (λ r, fge (rel_kin r) min_kinship = true)
         ((λ p, {| rel_i := p.1; rel_j := p.2; rel_kin := kin p.1 p.2 |}) <$> ordered_pairs keys).

(** [hl.maximal_independent_set(i, j, keep)]: nodes of highest degree are
    removed, one at a time, until no edge is left.  With [keep=False] the
    result is the table of the removed nodes. *)
Definition edge := (option string * option string)%type.

Definition incident (v : option string) (e : edge) : bool :=
  bool_decide (e.1 = v) || bool_decide (e.2 = v).

Definition degree (es : list edge) (v : option string) : nat :=
  length (filter (λ e, incident v e = true) es).

Definition nodes (es : list edge) : list (option string) :=
  remove_dups (es ≫= λ e, [e.1; e.2]).

(** A node of highest degree.  Hail does not document which of several
    nodes of the same highest degree its heap yields first when no
    [tie_breaker] is given; here it is the first one in the order of the
    edges. *)
Definition max_degree_node (es : list edge) : option (option string) :=
  foldr (λ v best,
           match best with
           | Some b => if decide (degree es b ≤ degree es v)%nat then Some v else Some b
           | None => Some v
           end) None (nodes es).

Fixpoint mis_removed (fuel : nat) (es : list edge) : list (option string) :=
  match fuel with
  | O => []
  | S fuel =>
      match max_degree_node es with
      | None => []
      | Some v => v :: mis_removed fuel (filter (λ e, incident v e = false) es)
      end
  end.

Definition maximal_independent_set (es : list edge) (keep : bool) : list (option string) :=
  let removed := mis_removed (length es) es in
  if keep then filter (λ v, v ∉ removed) (nodes es) else removed.

(** ** Running cells in sequence

    A cell that raises stops the run: the notebook has no handler. *)
Definition run (steps : list (MatrixTable → res MatrixTable)) (mt : MatrixTable) :
    res MatrixTable :=
  foldl (λ acc step, bind acc step) (Ok mt) steps.

(** What a filter with predicate [p] does to one element. *)
Definition kept {A} (p : A → res (option bool)) (keep : bool) (x : A) : bool :=
  match p x with
  | Ok b => retain keep b
  | Raise _ => false
  end.

(** [f] raises [e] on an element of [l] and returns on every element
    before it. *)
Definition first_raise {A B} (f : A → res B) (l : list A) (e : exn) : Prop :=
  ∃ l1 x l2, l = l1 ++ x :: l2 ∧ Forall (λ y, ∃ v, f y = Ok v) l1 ∧ f x = Raise e.

(** The samples and the variants of a matrix table, by key. *)
Definition samples (mt : MatrixTable) : list (option (option val)) :=
  (λ c : struct, c !! "s") <$> cols mt.

Definition variants (mt : MatrixTable) : list (option (option val) * option (option val)) :=
  (λ r, (row_fields r !! "locus", row_fields r !! "alleles")) <$> rows mt.

(** Two structs that agree on every field outside [names]. *)
Definition agree_except (names : list string) (s s' : struct) : Prop :=
  ∀ k, k ∉ names → s' !! k = s !! k.

(** Two matrix tables of the same shape that agree, position by
    position, on every field outside [names]. *)
Definition frame (names : list string) (mt mt' : MatrixTable) : Prop :=
  agree_except names (globals mt) (globals mt') ∧
  Forall2 (agree_except names) (cols mt) (cols mt') ∧
  Forall2 (λ r r',
             agree_except names (row_fields r) (row_fields r') ∧
             Forall2 (option_Forall2 (agree_except names)) (row_entries r) (row_entries r'))
          (rows mt) (rows mt').

(** The four kinds of fields of a matrix table, and the matrix tables in
    which every struct of one kind has the fields [names]. *)
Inductive level := Globals | Cols | Rows | Entries.

Definition has_fields (lv : level) (names : list string) (mt : MatrixTable) : Prop :=
  match lv with
  | Globals => ∀ n, n ∈ names → is_Some (globals mt !! n)
  | Cols => ∀ c n, c ∈ cols mt → n ∈ names → is_Some (c !! n)
  | Rows => ∀ r n, r ∈ rows mt → n ∈ names → is_Some (row_fields r !! n)
  | Entries =>
      ∀ r e n, r ∈ rows mt → Some e ∈ row_entries r → n ∈ names → is_Some (e !! n)
  end.

(** ** The notebook

    The library routines whose results the cells only pass on are
    variables of the section: each may raise, and each returns what Hail
    documents (a per-sample struct, a table keyed by sample, ...).

    Where the cells are in [Hail_COVID19weswgs.ipynb] (cell: lines):
    28: 272; 38: 369; 41: 410; 46: 457; 53: 525-527; 56: 552; 59: 577;
    62: 607-609; 65: 634-635; 67: 651-652; 71: 686; 72: 695-697; 73: 706;
    74: 715; 77: 740; 80: 768; 82: 789; 93: 928-937; 96: 968-969; 99: 997;
    102: 1024; 103: 1033; 105: 1051-1053; 108: 1080; 110: 1097;
    112: 1113-1115; 113: 1124; 115: 1140; 117: 1163-1164; 118: 1173-1178;
    119: 1187-1191; 122: 1225-1226; 124: 1243-1244.  The other code cells
    display a table, a count or a plot and leave [mt] as it is. *)
Section Notebook.

(** [hl.is_snp(ref, alt)] *)
Variable is_snp : string → string → bool.
(** [hl.min_rep] and the entry downcoding of [hl.split_multi_hts] *)
Variable min_rep : option val → string → string → option val * list (option val).
Variable downcode : nat → struct → struct.
(** the sample annotations read by [hl.import_table] *)
Variable sa : table.
(** [hl.sample_qc] and [hl.variant_qc]: the statistics of one sample,
    of one variant *)
Variable sample_qc_of : MatrixTable → struct → res (option val).
Variable variant_qc_of : MatrixTable → Row → res (option val).
(** [hl.impute_sex(call, aaf_threshold, female_threshold, male_threshold)] *)
Variable hl_impute_sex : MatrixTable → float64 → float64 → float64 → res table.
(** [hl.hwe_normalized_pca(call, k, compute_loadings)]: the scores table *)
Variable hl_hwe_normalized_pca : MatrixTable → nat → bool → res table.
(** the kinship estimator of [hl.pc_relate], for a matrix table and
    principal-component scores *)
Variable pc_relate_kin :
  MatrixTable → table → res (option string → option string → float64).
(** the interval table [LCR_intervals], looked up at a locus *)
Variable LCR_intervals : option val → option val.
(** [hl.vep] and the CADD annotation of [db.annotate_rows_db] *)
Variable vep_of : MatrixTable → Row → res (option val).
Variable cadd_of : MatrixTable → Row → res (option val).

(** *** Splitting multi-allelic variants (cell 28)

    [mt = hl.split_multi_hts(mt)]: a row becomes one row per alternate
    allele other than the star allele ([keep_star] is [False]), with the
    alleles [ref, alt] in minimal representation, [a_index] the position
    of the alternate allele, and [was_split] true when the row had more
    than two alleles.  (Hail sorts the rows again by locus and alleles
    where the minimal representation moves a locus; the rows are kept
    here in the order in which they are made.)  A row with two alleles is treated in the same way:
    it is dropped when its alternate allele is the star allele, and a row
    without an alternate allele gives no row.  The entries of every row
    are downcoded to the alternate allele of the row. *)
Definition split_alt (r : Row) (loc : option val) (was_split : bool)
    (ref : option string) (i : nat) (alt : option string) : option Row :=
  match ref, alt with
  | Some ref, Some alt =>
      if decide (alt = "*") then None
      else
        let m := min_rep loc ref alt in
        Some {| row_fields :=
                  <["was_split" := Some (VBool was_split)]>
                    (<["a_index" := Some (VInt (Z.of_nat (S i)))]>
                       (<["alleles" := Some (VArray m.2)]>
                          (<["locus" := m.1]> (row_fields r))));
                row_entries := (λ e : option struct, downcode (S i) <$> e) <$> row_entries r |}
  | _, _ => None
  end.

Definition split_row (r : Row) : res (list Row) :=
  let* al := getattr (row_fields r) "alleles" >>= as_array in
  let* loc := getattr (row_fields r) "locus" in
  match al with
  | Some (ref :: alts) =>
      let* ref := as_str ref in
      let* alts := mapM as_str alts in
      Ok (omap id (imap (split_alt r loc (bool_decide (1 < length alts)%nat) ref) alts))
  | _ => Ok []
  end.

Definition cell28 (mt : MatrixTable) : res MatrixTable :=
  let* rs := mapM split_row (rows mt) in
  Ok {| globals := globals mt; cols := cols mt; rows := mjoin rs |}.

(** *** Sample annotations (cell 38)

    [mt = mt.annotate_cols(pheno = sa[mt.s])] *)
Definition cell38 : MatrixTable → res MatrixTable :=
  annotate_cols [("pheno", λ gc, let* s := col_s gc.2 in Ok (table_get sa s))].

(** *** Sample QC (cells 41 and 46)

    [mt = hl.sample_qc(mt)] *)
Definition cell41 (mt : MatrixTable) : res MatrixTable :=
  annotate_cols [("sample_qc", λ gc, sample_qc_of mt gc.2)] mt.

Definition call_rate (c : struct) : res (option float64) :=
  (getattr c "sample_qc" >>= getfield "call_rate") >>= as_float.
Definition dp_stats_mean (c : struct) : res (option float64) :=
  ((getattr c "sample_qc" >>= getfield "dp_stats") >>= getfield "mean") >>= as_float.
Definition n_snp (c : struct) : res (option Z) :=
  (getattr c "sample_qc" >>= getfield "n_snp") >>= as_int.

(** [mt = mt.filter_cols(mt.sample_qc.call_rate >= 0.97)] *)
Definition cell46 : MatrixTable → res MatrixTable :=
  filter_cols (λ g c, let* cr := call_rate c in Ok (lift2 fge cr (lit (97 # 100)))) true.

(** *** Sex imputation (cells 53 to 59)

    [mt = mt.filter_rows((hl.len(mt.alleles) == 2)
                         & hl.is_snp(mt.alleles[0], mt.alleles[1])
                         & (hl.agg.mean(mt.GT.n_alt_alleles()) / 2 > 0.001)
                         & (hl.agg.fraction(hl.is_defined(mt.GT)) > 0.97))] *)
Definition n_alleles (r : Row) : res (option Z) :=
  getattr (row_fields r) "alleles" >>= hl_len.
Definition allele (i : nat) (r : Row) : res (option string) :=
  let* al := getattr (row_fields r) "alleles" in hl_index al i >>= as_str.
Definition mean_alt_freq (r : Row) : res (option float64) :=
  let* gts := row_GTs r in
  Ok (Some (fdiv (agg_mean ((λ gt : option call, n_alt_alleles <$> gt) <$> gts)) (float_of_Z 2))).
Definition GT_call_rate (r : Row) : res (option float64) :=
  let* gts := row_GTs r in
  Ok (agg_fraction ((λ gt : option call, hl_is_defined gt) <$> gts)).

Definition sex_qc_filter (g : struct) (r : Row) : res (option bool) :=
  hl_and
    (hl_and
       (hl_and (let* n := n_alleles r in Ok (lift2 Z.eqb n (Some 2)))
               (let* a0 := allele 0 r in let* a1 := allele 1 r in Ok (lift2 is_snp a0 a1)))
       (let* f := mean_alt_freq r in Ok (lift2 fgt f (lit (1 # 1000)))))
    (let* f := GT_call_rate r in Ok (lift2 fgt f (lit (97 # 100)))).

Definition cell53 : MatrixTable → res MatrixTable :=
  filter_rows sex_qc_filter true.

(** [imputed_sex = hl.impute_sex(mt.GT, aaf_threshold=0.05,
                                 female_threshold=0.5, male_threshold=0.75)] *)
Definition cell56 (mt : MatrixTable) : res table :=
  hl_impute_sex mt (FNum (5 # 100)) (FNum (5 # 10)) (FNum (75 # 100)).

(** [mt = mt.annotate_cols(impute_sex = imputed_sex[mt.s])] *)
Definition cell59 (imputed_sex : table) : MatrixTable → res MatrixTable :=
  annotate_cols [("impute_sex", λ gc, let* s := col_s gc.2 in Ok (table_get imputed_sex s))].

(** *** Additional sample filters (cells 62 to 67) *)
Definition f_stat (c : struct) : res (option float64) :=
  (getattr c "impute_sex" >>= getfield "f_stat") >>= as_float.

(** [mt = mt.annotate_cols(
       aneuploid = (mt.impute_sex.f_stat >= 0.5)
                   | hl.is_missing(mt.impute_sex.f_stat)
                   | ((mt.impute_sex.f_stat >= 0.4) & (mt.impute_sex.f_stat <= 0.6)),
       sex_aneuploidy = (mt.impute_sex.f_stat < 0.4))] *)
Definition cell62 : MatrixTable → res MatrixTable :=
  annotate_cols
    [("aneuploid", λ gc,
        res_map vbool
          (hl_or (hl_or (let* f := f_stat gc.2 in Ok (lift2 fge f (lit (5 # 10))))
                        (let* f := f_stat gc.2 in Ok (hl_is_missing f)))
                 (hl_and (let* f := f_stat gc.2 in Ok (lift2 fge f (lit (4 # 10))))
                         (let* f := f_stat gc.2 in Ok (lift2 fle f (lit (6 # 10)))))));
     ("sex_aneuploidy", λ gc,
        res_map vbool (let* f := f_stat gc.2 in Ok (lift2 flt f (lit (4 # 10)))))].

(** [mt = mt.filter_cols((mt.sample_qc.call_rate >= 0.97)
                         & (mt.sample_qc.dp_stats.mean > 20)
                         & (hl.is_defined(mt.impute_sex.is_female)))] *)
Definition is_female (c : struct) : res (option val) :=
  getattr c "impute_sex" >>= getfield "is_female".

Definition cell65 : MatrixTable → res MatrixTable :=
  filter_cols (λ g c,
    hl_and (hl_and (let* cr := call_rate c in Ok (lift2 fge cr (lit (97 # 100))))
                   (let* dp := dp_stats_mean c in Ok (lift2 fgt dp (lit 20))))
           (let* v := is_female c in Ok (hl_is_defined v))) true.

(** [mt = mt.filter_cols((mt.sample_qc.call_rate >= 0.97)
                         & (mt.sample_qc.dp_stats.mean > 20)
                         & (hl.is_defined(mt.aneuploid)))] *)
Definition cell67 : MatrixTable → res MatrixTable :=
  filter_cols (λ g c,
    hl_and (hl_and (let* cr := call_rate c in Ok (lift2 fge cr (lit (97 # 100))))
                   (let* dp := dp_stats_mean c in Ok (lift2 fgt dp (lit 20))))
           (let* v := getattr c "aneuploid" in Ok (hl_is_defined v))) true.

(** *** Relatedness filter (cells 71 to 77)

    [pca_eigenvalues, pca_scores, pca_loadings =
       hl.hwe_normalized_pca(mt.GT, k=10, compute_loadings=False)] *)
Definition cell71 (mt : MatrixTable) : res table :=
  hl_hwe_normalized_pca mt 10 false.

(** [relatedness_ht = hl.pc_relate(mt.GT, min_individual_maf=0.01,
       scores_expr=pca_scores[mt.col_key].scores, block_size=4096,
       min_kinship=0.1, statistics='all')] *)
Definition cell72 (pca_scores : table) (mt : MatrixTable) : res (list rel) :=
  let* kin := pc_relate_kin mt pca_scores in
  let* keys := mapM col_s (cols mt) in
  Ok (pc_relate kin (FNum (1 # 10)) keys).

(** [pairs = relatedness_ht.filter(relatedness_ht['kin'] > 0.088)] *)
Definition cell73 (relatedness_ht : list rel) : list rel :=
  filter (λ r, fgt (rel_kin r) (FNum (88 # 1000)) = true) relatedness_ht.

(** [related_samples_to_remove =
       hl.maximal_independent_set(pairs.i, pairs.j, False)] *)
Definition cell74 (pairs : list rel) : list (option string) :=
  maximal_independent_set ((λ r, (rel_i r, rel_j r)) <$> pairs) false.

(** [mt = mt.filter_cols(
       hl.is_defined(related_samples_to_remove[mt.col_key]), keep=False)]:
    the lookup finds a row when the column key is one of the nodes. *)
Definition cell77 (related_samples_to_remove : list (option string)) :
    MatrixTable → res MatrixTable :=
  filter_cols (λ g c,
    let* k := col_s c in
    Ok (Some (bool_decide (is_Some k ∧ k ∈ related_samples_to_remove)))) false.

Definition relatedness_filter (mt : MatrixTable) : res MatrixTable :=
  let* pca_scores := cell71 mt in
  let* relatedness_ht := cell72 pca_scores mt in
  cell77 (cell74 (cell73 relatedness_ht)) mt.

(** *** Ancestry (cells 80 and 82)

    [pca_eigenvalues, pca_scores, pca_loadings =
       hl.hwe_normalized_pca(mt.GT, compute_loadings=True)]
    [mt = mt.annotate_cols(pca = pca_scores[mt.s])] *)
Definition cell80 (mt : MatrixTable) : res table :=
  hl_hwe_normalized_pca mt 10 true.

Definition cell82 (pca_scores : table) : MatrixTable → res MatrixTable :=
  annotate_cols [("pca", λ gc, let* s := col_s gc.2 in Ok (table_get pca_scores s))].

(** *** Outlier detection (cells 93 and 96)

    [metric_values = hl.agg.collect(mt.sample_qc.n_snp)
     metric_median = hl.median(metric_values)
     metric_mad = 1.4826 * hl.median(hl.abs(metric_values - metric_median))
     outlier_metric = hl.struct(median=metric_median, mad=metric_mad,
                                upper=metric_median + 4 * metric_mad,
                                lower=metric_median - 4 * metric_mad)
     mt = mt.annotate_globals(metrics_stats=mt.aggregate_cols(outlier_metric))]

    [aggregate_cols] is an action: it returns the statistics as a Python
    value, a struct whose fields are [None] where a statistic is missing,
    and [annotate_globals] is given this value, which it has to turn into
    an expression. *)
Definition metric_values (mt : MatrixTable) : res (list (option Z)) :=
  mapM n_snp (cols mt).

Definition metric_median (vs : list (option Z)) : option Z := hl_median vs.

Definition metric_mad (vs : list (option Z)) : option float64 :=
  lift2 fmul (lit (14826 # 10000))
    (float_of_Z <$>
       hl_median ((λ v, hl_abs64 <$> lift2 hl_sub64 v (metric_median vs)) <$> vs)).

Definition outlier_metric (mt : MatrixTable) : res (option val) :=
  let* vs := metric_values mt in
  let median := float_of_Z <$> metric_median vs in
  let mad := metric_mad vs in
  Ok (Some (VStruct
    [("median", VInt <$> metric_median vs);
     ("mad", vfloat mad);
     ("upper", vfloat (lift2 fadd median (lift2 fmul (lit 4) mad)));
     ("lower", vfloat (lift2 fsub median (lift2 fmul (lit 4) mad)))])).

Definition cell93 : MatrixTable → res MatrixTable :=
  annotate_globals [("metrics_stats", λ mt, outlier_metric mt >>= to_expr)].

Definition metrics_stats (g : struct) (f : string) : res (option float64) :=
  getattr g "metrics_stats" >>= getfield f >>= as_float.

(** [mt = mt.filter_cols((mt.sample_qc.n_snp <= mt.metrics_stats.upper)
                         | (mt.sample_qc.n_snp >= mt.metrics_stats.lower))] *)
Definition cell96 : MatrixTable → res MatrixTable :=
  filter_cols (λ g c,
    hl_or (let* x := n_snp c in let* u := metrics_stats g "upper" in
           Ok (lift2 fle (float_of_Z <$> x) u))
          (let* x := n_snp c in let* l := metrics_stats g "lower" in
           Ok (lift2 fge (float_of_Z <$> x) l))) true.

(** *** Variant QC (cells 99 to 115)

    [mt = hl.variant_qc(mt)] *)
Definition cell99 (mt : MatrixTable) : res MatrixTable :=
  annotate_rows [("variant_qc", λ gr, variant_qc_of mt gr.2)] mt.

Definition n_filters (r : Row) : res (option Z) :=
  getattr (row_fields r) "filters" >>= hl_len.

(** [mt = mt.annotate_rows(fail_VQSR = hl.len(mt.filters) == 0)] *)
Definition cell102 : MatrixTable → res MatrixTable :=
  annotate_rows
    [("fail_VQSR", λ gr, let* n := n_filters gr.2 in Ok (vbool (lift2 Z.eqb n (Some 0))))].

Definition fail_VQSR (g : struct) (r : Row) : res (option bool) :=
  getattr (row_fields r) "fail_VQSR" >>= as_bool.

(** [mt.filter_rows(mt.fail_VQSR).count_rows()], in cells 103 and 112 *)
Definition count_fail_VQSR (mt : MatrixTable) : res nat :=
  res_map n_rows (filter_rows fail_VQSR true mt).

(** [mt = mt.annotate_rows(in_LCR = hl.is_defined(LCR_intervals[mt.locus]))] *)
Definition cell105 : MatrixTable → res MatrixTable :=
  annotate_rows
    [("in_LCR", λ gr, let* l := getattr (row_fields gr.2) "locus" in
                      Ok (vbool (hl_is_defined (LCR_intervals l))))].

(** [mt = mt.filter_rows(mt.in_LCR, keep=False)] *)
Definition cell108 : MatrixTable → res MatrixTable :=
  filter_rows (λ g r, getattr (row_fields r) "in_LCR" >>= as_bool) false.

(** [mt = mt.annotate_rows(fail_VQSR = hl.len(mt.filters) != 0)] *)
Definition cell110 : MatrixTable → res MatrixTable :=
  annotate_rows
    [("fail_VQSR", λ gr, let* n := n_filters gr.2 in
                         Ok (vbool (lift2 (λ a b, negb (a =? b)) n (Some 0))))].

(** [mt = mt.filter_rows(mt.fail_VQSR, keep=False)] *)
Definition cell113 : MatrixTable → res MatrixTable :=
  filter_rows fail_VQSR false.

(** [mt = mt.filter_rows((mt.qc.AF[0] > 0.0) & (mt.qc.AF[0] < 1.0))] *)
Definition qc_AF0 (r : Row) : res (option float64) :=
  (let* af := getattr (row_fields r) "qc" >>= getfield "AF" in hl_index af 0) >>= as_float.

Definition cell115 : MatrixTable → res MatrixTable :=
  filter_rows (λ g r,
    hl_and (let* f := qc_AF0 r in Ok (lift2 fgt f (lit 0)))
           (let* f := qc_AF0 r in Ok (lift2 flt f (lit 1)))) true.

(** *** Genotype QC (cells 117 to 119)

    [mt = mt.annotate_entries(AB = (mt.AD[1] / hl.sum(mt.AD)))]

    The index error of [mt.AD[1]] on an array of fewer than two elements
    is an error of evaluation: Hail raises it when the entries are
    computed, which the aggregate of cell 118 is the first to ask for. *)
Definition allele_balance (e : struct) : res (option float64) :=
  let* ad := getattr e "AD" in
  let* alt := hl_index ad 1 >>= as_int in
  let* total := hl_sum_int32 ad in
  Ok (lift2 fdiv (float_of_Z <$> alt) (float_of_Z <$> total)).

Definition cell117 : MatrixTable → res MatrixTable :=
  annotate_entries [("AB", λ grce, res_map vfloat (allele_balance grce.2))].

Definition GT (e : struct) : res (option call) := getattr e "GT" >>= as_call.
Definition AB (e : struct) : res (option float64) := getattr e "AB" >>= as_float.
Definition GQ (e : struct) : res (option Z) := getattr e "GQ" >>= as_int.
Definition DP (e : struct) : res (option Z) := getattr e "DP" >>= as_int.

(** [filter_condition_ab =
       ((mt.GT.is_hom_ref() & (mt.AB <= 0.1))
        | (mt.GT.is_het() & (mt.AB >= 0.25) & (mt.AB <= 0.75))
        | (mt.GT.is_hom_var() & (mt.AB >= 0.9)))] *)
Definition filter_condition_ab (e : struct) : res (option bool) :=
  hl_or
    (hl_or
       (hl_and (let* g := GT e in Ok (is_hom_ref <$> g))
               (let* ab := AB e in Ok (lift2 fle ab (lit (1 # 10)))))
       (hl_and
          (hl_and (let* g := GT e in Ok (is_het <$> g))
                  (let* ab := AB e in Ok (lift2 fge ab (lit (25 # 100)))))
          (let* ab := AB e in Ok (lift2 fle ab (lit (75 # 100))))))
    (hl_and (let* g := GT e in Ok (is_hom_var <$> g))
            (let* ab := AB e in Ok (lift2 fge ab (lit (9 # 10))))).

(** [fraction_filtered =
       mt.aggregate_entries(hl.agg.fraction(~filter_condition_ab))]:
    an action, which evaluates the entries and returns a Python value,
    [None] when the fraction is missing. *)
Definition fraction_filtered (mt : MatrixTable) : res (option float64) :=
  let* bs := mapM (λ e, res_map hl_not (filter_condition_ab e))
                  (rows mt ≫= λ r, omap id (row_entries r)) in
  Ok (agg_fraction bs).

(** [print(f'Filtering {fraction_filtered * 100:.2f}% entries ...')]: the
    percentage that cell 118 prints; Python raises [TypeError] for the
    product of [None] and a number. *)
Definition cell118 (mt : MatrixTable) : res float64 :=
  let* f := fraction_filtered mt in
  match f with
  | Some x => Ok (fmul x (FNum 100))
  | None => Raise (TypeError "float")
  end.

(** [mt = mt.filter_entries((mt.GQ >= 20) & (mt.GQ >= 10) &
       ((mt.GT.is_hom_ref() & (mt.AB <= 0.1))
        | (mt.GT.is_het() & (mt.AB >= 0.25) & (mt.AB <= 0.75))
        | (mt.GT.is_hom_var() & (mt.AB >= 0.9))))] *)
Definition cell119 : MatrixTable → res MatrixTable :=
  filter_entries (λ g r c e,
    hl_and
      (hl_and (let* q := GQ e in Ok (lift2 Z.geb q (Some 20)))
              (let* q := GQ e in Ok (lift2 Z.geb q (Some 10))))
      (filter_condition_ab e)) true.

(** *** Functional annotation (cells 122 and 124)

    [mt = hl.vep(mt)] and [mt = db.annotate_rows_db(mt, "CADD")] *)
Definition cell122 (mt : MatrixTable) : res MatrixTable :=
  annotate_rows [("vep", λ gr, vep_of mt gr.2)] mt.

Definition cell124 (mt : MatrixTable) : res MatrixTable :=
  annotate_rows [("CADD", λ gr, cadd_of mt gr.2)] mt.

(** *** The cells in notebook order

    Cells 56 and 59, and cells 80 and 82, pass a table from one to the
    other. *)
Definition sex_imputation (mt : MatrixTable) : res MatrixTable :=
  let* imputed_sex := cell56 mt in cell59 imputed_sex mt.

Definition ancestry (mt : MatrixTable) : res MatrixTable :=
  let* pca_scores := cell80 mt in cell82 pca_scores mt.

(** The cells that follow the multi-allelic split. *)
Definition qc_steps : list (MatrixTable → res MatrixTable) :=
  [cell38; cell41; cell46; cell53; sex_imputation; cell62; cell65; cell67;
   relatedness_filter; ancestry; cell93; cell96; cell99; cell102; cell105;
   cell108; cell110; cell113; cell115; cell117; cell119; cell122; cell124].

Definition notebook_steps : list (MatrixTable → res MatrixTable) :=
  cell28 :: qc_steps.

(** The cells between the import of the sample annotations (cell 34) and
    the import of the intervals (first line of cell 105), and the cells
    from the annotation of cell 105 on. *)
Definition cells_38_to_102 : list (MatrixTable → res MatrixTable) :=
  [cell38; cell41; cell46; cell53; sex_imputation; cell62; cell65; cell67;
   relatedness_filter; ancestry; cell93; cell96; cell99; cell102].

Definition cells_105_to_124 : list (MatrixTable → res MatrixTable) :=
  [cell105; cell108; cell110; cell113; cell115; cell117; cell119; cell122; cell124].

(** The [annotate_*] cells, each with the kind of fields it annotates and
    the field names it is given. *)
Definition annotation_cells (imputed_sex pca_scores : table) :
    list (level * list string * (MatrixTable → res MatrixTable)) :=
  [(Cols, ["pheno"], cell38);
   (Cols, ["impute_sex"], cell59 imputed_sex);
   (Cols, ["aneuploid"; "sex_aneuploidy"], cell62);
   (Cols, ["pca"], cell82 pca_scores);
   (Globals, ["metrics_stats"], cell93);
   (Rows, ["fail_VQSR"], cell102);
   (Rows, ["in_LCR"], cell105);
   (Rows, ["fail_VQSR"], cell110);
   (Entries, ["AB"], cell117)].

End Notebook.

(** *** The notebook with its imports

    [mt = hl.read_matrix_table('resources/1kg.mt')] (cell 11),
    [sa = hl.import_table('resources/1kg_annotations.txt', ...)] (cell 34)
    and [LCR_intervals = hl.import_locus_intervals(...)] (cell 105) read
    files: each gives its table or raises.  The cells that assign [mt]
    run in the order of the notebook, each import where the notebook has
    it, with no handler around any of them; the cells that only display a
    table, a count or a plot are left out. *)
Section Imports.
Variable is_snp : string → string → bool.
Variable min_rep : option val → string → string → option val * list (option val).
Variable downcode : nat → struct → struct.
Variable sample_qc_of : MatrixTable → struct → res (option val).
Variable variant_qc_of : MatrixTable → Row → res (option val).
Variable hl_impute_sex : MatrixTable → float64 → float64 → float64 → res table.
Variable hl_hwe_normalized_pca : MatrixTable → nat → bool → res table.
Variable pc_relate_kin :
  MatrixTable → table → res (option string → option string → float64).
Variables vep_of cadd_of : MatrixTable → Row → res (option val).
Variable read_matrix_table : res MatrixTable.
Variable import_table : res table.
Variable import_locus_intervals : res (option val → option val).

Definition notebook : res MatrixTable :=
  let* mt := read_matrix_table in
  let* mt := cell28 min_rep downcode mt in
  let* sa := import_table in
  let* mt := run (cells_38_to_102 is_snp sa sample_qc_of variant_qc_of hl_impute_sex
                    hl_hwe_normalized_pca pc_relate_kin) mt in
  let* LCR_intervals := import_locus_intervals in
  run (cells_105_to_124 LCR_intervals vep_of cadd_of) mt.

End Imports.

(** A matrix table is rectangular: every row has one entry per column. *)
Definition rectangular (mt : MatrixTable) : Prop :=
  Forall (λ r, length (row_entries r) = length (cols mt)) (rows mt).

(** The samples and the variants of [mt'] are among those of [mt], in the
    same order. *)
Definition shrinks (mt mt' : MatrixTable) : Prop :=
  samples mt' `sublist_of` samples mt ∧ variants mt' `sublist_of` variants mt.

(** ** Example tables

    Small inputs on which the cells are evaluated. *)
Definition mk_struct (l : list (string * option val)) : struct := list_to_map l.

Definition ex_sample_qc (call_rate dp_mean : Q) (n_snp : Z) : option val :=
  Some (VStruct [("call_rate", Some (VFloat (FNum call_rate)));
                 ("dp_stats", Some (VStruct [("mean", Some (VFloat (FNum dp_mean)))]));
                 ("n_snp", Some (VInt n_snp))]).

Definition ex_impute_sex (is_female : option bool) (f_stat : Q) : option val :=
  Some (VStruct [("is_female", VBool <$> is_female);
                 ("f_stat", Some (VFloat (FNum f_stat)))]).

Definition ex_sample (s : string) (call_rate dp_mean : Q) (n_snp : Z)
    (is_female : option bool) : struct :=
  mk_struct [("s", Some (VStr s));
             ("sample_qc", ex_sample_qc call_rate dp_mean n_snp);
             ("impute_sex", ex_impute_sex is_female (1 # 10))].

Definition ex_entry (gt : call) (ad : list Z) (dp gq : Z) : option struct :=
  Some (mk_struct [("GT", Some (VCall gt));
                   ("AD", Some (VArray ((λ z, Some (VInt z)) <$> ad)));
                   ("DP", Some (VInt dp));
                   ("GQ", Some (VInt gq))]).

Definition ex_row (pos : Z) (alleles : list string) (filters : option (list string))
    (entries : list (option struct)) : Row :=
  {| row_fields :=
       mk_struct [("locus", Some (VLocus "1" pos));
                  ("alleles", Some (VArray ((λ a, Some (VStr a)) <$> alleles)));
                  ("filters", (λ fs, VSet (VStr <$> fs)) <$> filters)];
     row_entries := entries |}.

(** Five samples, one of them with a hundred times the SNP count of the
    others. *)
Definition outlier_mt : MatrixTable :=
  {| globals := ∅;
     cols := [ex_sample "a" 1 30 10 (Some true); ex_sample "b" 1 30 10 (Some true);
              ex_sample "c" 1 30 10 (Some false); ex_sample "d" 1 30 10 (Some false);
              ex_sample "e" 1 30 1000 (Some true)];
     rows := [] |}.

(** One variant called in two samples: a homozygous-reference call of
    read depth 5, and a heterozygous call with one read in ten for the
    alternate allele. *)
Definition genotype_mt : MatrixTable :=
  {| globals := ∅;
     cols := [ex_sample "a" 1 30 10 (Some true); ex_sample "b" 1 30 10 (Some false)];
     rows := [ex_row 100 ["A"; "C"] (Some [])
                [ex_entry [0; 0]%nat [5; 0] 5 30; ex_entry [0; 1]%nat [18; 2] 20 40]] |}.

(** Two samples whose kinship estimate is 0.09. *)
Definition related_mt : MatrixTable :=
  {| globals := ∅;
     cols := [ex_sample "a" 1 30 10 (Some true); ex_sample "b" 1 30 10 (Some false)];
     rows := [] |}.

Definition ex_pca : MatrixTable → nat → bool → res table := λ _ _ _, Ok (λ _, None).
Definition ex_kin (k : Q) : MatrixTable → table →
    res (option string → option string → float64) :=
  λ _ _, Ok (λ _ _, FNum k).

(** Four samples: one with a low call rate, one with a low mean depth,
    one whose sex could not be imputed, and one that passes. *)
Definition sample_qc_mt : MatrixTable :=
  {| globals := ∅;
     cols := [ex_sample "a" (9 # 10) 30 10 (Some true);
              ex_sample "b" 1 (15 # 1) 10 (Some false);
              ex_sample "c" 1 30 10 None;
              ex_sample "d" (99 # 100) 25 10 (Some false)];
     rows := [] |}.

(** A variant that passes VQSR (its set of filters is empty) and one that
    fails. *)
Definition vqsr_mt : MatrixTable :=
  {| globals := ∅;
     cols := [];
     rows := [ex_row 100 ["A"; "C"] (Some []) [];
              ex_row 200 ["G"; "T"] (Some ["VQSRTrancheSNP99.90to100.00"]) []] |}.

(** One variant with two alternate alleles. *)
Definition multi_mt : MatrixTable :=
  {| globals := ∅;
     cols := [mk_struct [("s", Some (VStr "a"))]];
     rows := [ex_row 100 ["A"; "C"; "G"] (Some []) [ex_entry [1; 2]%nat [0; 5; 5] 10 30]] |}.

(** Stand-ins for the library routines. *)
Definition ex_is_snp (ref alt : string) : bool :=
  bool_decide (String.length ref = 1%nat ∧ String.length alt = 1%nat ∧ ref ≠ alt).
Definition ex_min_rep (locus : option val) (ref alt : string) :
    option val * list (option val) :=
  (locus, [Some (VStr ref); Some (VStr alt)]).
Definition ex_downcode (a_index : nat) (e : struct) : struct := e.
Definition ex_sa : table := λ _, None.
Definition ex_sample_qc_of : MatrixTable → struct → res (option val) :=
  λ _ _, Ok (ex_sample_qc 1 30 10).
Definition ex_variant_qc_of : MatrixTable → Row → res (option val) := λ _ _, Ok None.
Definition ex_impute_sex_fails : MatrixTable → float64 → float64 → float64 → res table :=
  λ _ _ _ _, Raise (HailError "impute_sex").
Definition ex_LCR_intervals : option val → option val := λ _, None.

(** Two variants called in two samples, as read from a VCF. *)
Definition vcf_mt : MatrixTable :=
  {| globals := ∅;
     cols := [mk_struct [("s", Some (VStr "a"))]; mk_struct [("s", Some (VStr "b"))]];
     rows := [ex_row 100 ["A"; "C"] (Some [])
                [ex_entry [0; 1]%nat [5; 5] 10 30; ex_entry [0; 0]%nat [9; 0] 9 30];
              ex_row 200 ["G"; "GT"] (Some [])
                [ex_entry [0; 0]%nat [7; 0] 7 30; ex_entry [1; 1]%nat [0; 8] 8 30]] |}.

(** An interval table with one interval, which covers position 200 of
    contig 1. *)
Definition ex_LCR_at_200 (locus : option val) : option val :=
  match locus with
  | Some (VLocus contig pos) =>
      if bool_decide (contig = "1" ∧ pos = 200) then Some (VStruct []) else None
  | _ => None
  end.

(** The matrix tables none of whose rows has a field [f]. *)
Definition rows_lack (f : string) (mt : MatrixTable) : Prop :=
  ∀ r, r ∈ rows mt → row_fields r !! f = None.

(** Reading the result of an evaluation. *)
Definition empty_mt : MatrixTable := {| globals := ∅; cols := []; rows := [] |}.

Definition result (m : res MatrixTable) : MatrixTable :=
  match m with
  | Ok mt => mt
  | Raise _ => empty_mt
  end.

Definition col_values {A} (f : struct → res A) (mt : MatrixTable) : res (list A) :=
  mapM f (cols mt).

Definition row_values {A} (f : Row → res A) (mt : MatrixTable) : res (list A) :=
  mapM f (rows mt).

(** Per row, per column: [None] for a filtered entry. *)
Definition entry_values {A} (f : struct → res A) (mt : MatrixTable) :
    res (list (list (option A))) :=
  mapM (λ r, mapM (λ e : option struct,
                     match e with
                     | None => Ok None
                     | Some x => res_map Some (f x)
                     end) (row_entries r)) (rows mt).

(** * Properties *)

(** ** The result monad *)

Lemma bind_Ok {A B} (m : res A) (f : A → res B) (b : B) :
  bind m f = Ok b → ∃ a, m = Ok a ∧ f a = Ok b.
Proof. destruct m as [a|e]; simpl; [eauto | discriminate]. Qed.

Lemma res_map_Ok {A B} (f : A → B) (m : res A) (b : B) :
  res_map f m = Ok b → ∃ a, m = Ok a ∧ b = f a.
Proof.
  unfold res_map. intros H. apply bind_Ok in H as (a & -> & H).
  exists a. split; [done | congruence].
Qed.

Lemma mapM_Ok {A B} (f : A → res B) (l : list A) (k : list B) :
  mapM f l = Ok k → Forall2 (λ x y, f x = Ok y) l k.
Proof.
  revert k. induction l as [|x l IH]; intros k H; simpl in H.
  - injection H as <-. constructor.
  - apply bind_Ok in H as (y & Hy & H).
    apply bind_Ok in H as (k' & Hk & H).
    injection H as <-. constructor; auto.
Qed.

(** ** Selecting by a mask *)

Lemma select_filter {A} (q : A → bool) (l : list A) (mask : list bool) :
  Forall2 (λ x b, q x = b) l mask →
  select mask l = filter (λ x, q x = true) l.
Proof.
  induction 1 as [|x b l mask Hx _ IH]; [done|]. simpl. subst b.
  destruct (q x) eqn:Hq.
  - rewrite filter_cons_True by done. by rewrite IH.
  - rewrite filter_cons_False by (rewrite Hq; done). done.
Qed.

Lemma mask_kept {A} (p : A → res (option bool)) (keep : bool) (l : list A) (mask : list bool) :
  mapM (λ x, res_map (retain keep) (p x)) l = Ok mask →
  Forall2 (λ x b, kept p keep x = b) l mask.
Proof.
  intros H. apply mapM_Ok in H.
  eapply Forall2_impl; [exact H|]. simpl. intros x b Hx.
  apply res_map_Ok in Hx as (a & Ha & ->). unfold kept. by rewrite Ha.
Qed.

Lemma kept_true {A} (p : A → res (option bool)) (keep : bool) (x : A) :
  kept p keep x = true ↔ p x = Ok (Some keep).
Proof.
  unfold kept, retain. destruct (p x) as [[b|]|e]; split; try done.
  - intros H. apply bool_decide_eq_true in H. by subst.
  - intros [= ->]. by apply bool_decide_eq_true.
Qed.

(** ** The filter operations *)

Lemma filter_cols_Ok p keep mt mt' :
  filter_cols p keep mt = Ok mt' →
  globals mt' = globals mt ∧
  cols mt' = filter (λ c, kept (p (globals mt)) keep c = true) (cols mt) ∧
  row_fields <$> rows mt' = row_fields <$> rows mt.
Proof.
  unfold filter_cols. intros H. apply bind_Ok in H as (mask & Hmask & [= <-]).
  simpl. split_and!; [done| |].
  - apply select_filter. by apply (mask_kept (p (globals mt))).
  - rewrite <- list_fmap_compose. by apply list_fmap_ext.
Qed.

Lemma filter_rows_Ok p keep mt mt' :
  filter_rows p keep mt = Ok mt' →
  globals mt' = globals mt ∧
  cols mt' = cols mt ∧
  rows mt' = filter (λ r, kept (p (globals mt)) keep r = true) (rows mt).
Proof.
  unfold filter_rows. intros H. apply bind_Ok in H as (mask & Hmask & [= <-]).
  simpl. split_and!; [done..|].
  apply select_filter. by apply (mask_kept (p (globals mt))).
Qed.

Lemma map_entries_Ok f mt mt' :
  map_entries f mt = Ok mt' →
  globals mt' = globals mt ∧
  cols mt' = cols mt ∧
  Forall2 (λ r r',
             row_fields r' = row_fields r ∧
             Forall2 (λ ce e', f (globals mt) (row_fields r) ce.1 ce.2 = Ok e')
                     (zip (cols mt) (row_entries r)) (row_entries r'))
          (rows mt) (rows mt').
Proof.
  unfold map_entries. intros H. apply bind_Ok in H as (rs & Hrs & [= <-]).
  simpl. split_and!; [done..|].
  apply mapM_Ok in Hrs. eapply Forall2_impl; [exact Hrs|].
  simpl. intros r r' Hr. apply bind_Ok in Hr as (es & Hes & [= <-]).
  split; [done|]. simpl. by apply mapM_Ok.
Qed.

Lemma filter_entry_Some p keep g r c e0 e :
  filter_entry p keep g r c e0 = Ok (Some e) →
  e0 = Some e ∧ p g r c e = Ok (Some keep).
Proof.
  destruct e0 as [x|]; simpl; [|discriminate].
  intros H. apply bind_Ok in H as (b & Hb & H).
  destruct (retain keep b) eqn:Hk; [|discriminate].
  injection H as <-. split; [done|].
  apply (kept_true (p g r c) keep x). unfold kept. by rewrite Hb.
Qed.

(** Where an entry of the result of [map_entries] comes from. *)
Lemma map_entries_elem f mt mt' r' e' :
  map_entries f mt = Ok mt' →
  r' ∈ rows mt' → e' ∈ row_entries r' →
  ∃ r c e, r ∈ rows mt ∧ c ∈ cols mt ∧ e ∈ row_entries r ∧
           row_fields r' = row_fields r ∧
           f (globals mt) (row_fields r) c e = Ok e'.
Proof.
  intros H Hr' He. apply map_entries_Ok in H as (_ & _ & H).
  apply list_elem_of_lookup in Hr' as [i Hi].
  destruct (Forall2_lookup_r _ _ _ _ _ H Hi) as (r & Hr & Hf & Hes).
  apply list_elem_of_lookup in He as [j Hj].
  destruct (Forall2_lookup_r _ _ _ _ _ Hes Hj) as ([c e] & Hce & Hfe).
  simpl in Hfe.
  apply lookup_zip_with_Some in Hce as (c' & e0' & [= <- <-] & Hc & He0).
  exists r, c, e. split_and!; try done; apply list_elem_of_lookup; eauto.
Qed.

(** An entry that a filter of the entries has kept, with the row and the
    column it belongs to. *)
Lemma filter_entries_kept p keep mt mt' r' e :
  filter_entries p keep mt = Ok mt' →
  r' ∈ rows mt' → Some e ∈ row_entries r' →
  ∃ r c, r ∈ rows mt ∧ c ∈ cols mt ∧ Some e ∈ row_entries r ∧
         row_fields r' = row_fields r ∧
         p (globals mt) (row_fields r) c e = Ok (Some keep).
Proof.
  intros H Hr' He.
  destruct (map_entries_elem _ _ _ _ _ H Hr' He) as (r & c & e0 & ? & ? & ? & ? & Hf).
  apply filter_entry_Some in Hf as [-> Hp]. eauto 10.
Qed.

(** ** Three-valued logic *)

Lemma hl_and_true a b :
  hl_and a b = Ok (Some true) ↔ a = Ok (Some true) ∧ b = Ok (Some true).
Proof.
  unfold hl_and. split.
  - destruct a as [[[]|]|]; simpl; try done; destruct b as [[[]|]|]; simpl; done.
  - by intros [-> ->].
Qed.

Lemma hl_or_true a b :
  hl_or a b = Ok (Some true) → a = Ok (Some true) ∨ b = Ok (Some true).
Proof.
  unfold hl_or.
  destruct a as [[[]|]|]; simpl; try done; auto;
    destruct b as [[[]|]|]; simpl; try done; auto.
Qed.

Lemma lift2_Some {A B C} (f : A → B → C) x y c :
  lift2 f x y = Some c ↔ ∃ a b, x = Some a ∧ y = Some b ∧ c = f a b.
Proof.
  destruct x as [a|], y as [b|]; simpl; split; try done.
  - intros [= <-]. eauto.
  - intros (? & ? & [= <-] & [= <-] & ->). done.
  - intros (? & ? & ? & ? & ?). done.
  - intros (? & ? & ? & ? & ?). done.
  - intros (? & ? & ? & ? & ?). done.
Qed.

(** A comparison of a fallible, possibly missing operand with a literal
    is [True] only when the operand is there and compares so. *)
Lemma compare_lit_true {A} (m : res (option A)) (cmp : A → A → bool) (l : A) :
  (let* x := m in Ok (lift2 cmp x (Some l))) = Ok (Some true) ↔
  ∃ x, m = Ok (Some x) ∧ cmp x l = true.
Proof.
  split.
  - intros H. apply bind_Ok in H as ([x|] & -> & H); simpl in H; [|done].
    injection H as H. eauto.
  - intros (x & -> & H). simpl. by rewrite H.
Qed.

Lemma is_defined_true {A} (m : res (option A)) :
  (let* v := m in Ok (hl_is_defined v)) = Ok (Some true) ↔ ∃ v, m = Ok (Some v).
Proof.
  split.
  - intros H. apply bind_Ok in H as (v & -> & H).
    injection H as H. apply bool_decide_eq_true in H as [x ->]. eauto.
  - intros (x & ->). simpl. unfold hl_is_defined. by rewrite bool_decide_eq_true_2.
Qed.

(** ** Sample QC (cells 46 and 65) *)

Lemma cell46_retains (mt mt' : MatrixTable) :
  cell46 mt = Ok mt' →
  ∀ c, c ∈ cols mt' ↔
       c ∈ cols mt ∧ ∃ cr, call_rate c = Ok (Some cr) ∧ fge cr (FNum (97 # 100)) = true.
Proof.
  intros H c. apply filter_cols_Ok in H as (_ & -> & _).
  rewrite list_elem_of_filter, kept_true.
  unfold lit. rewrite (compare_lit_true (call_rate c) fge). tauto.
Qed.

(** C4: after the sample-QC filters (cell 46, then cell 65) a sample is
    retained exactly when its call rate is at least 0.97, its mean read
    depth is above 20 and its imputed sex is defined; so every retained
    sample meets the three conditions and every sample that violates one
    is removed. *)
Theorem sample_qc_filters_retain (mt0 mt0' mt mt' : MatrixTable) :
  cell46 mt0 = Ok mt0' →
  cell65 mt = Ok mt' →
  (∀ c, c ∈ cols mt0' ↔
        c ∈ cols mt0 ∧
        ∃ cr, call_rate c = Ok (Some cr) ∧ fge cr (FNum (97 # 100)) = true) ∧
  (∀ c, c ∈ cols mt' ↔
        c ∈ cols mt ∧
        ∃ cr dp sex,
          call_rate c = Ok (Some cr) ∧ fge cr (FNum (97 # 100)) = true ∧
          dp_stats_mean c = Ok (Some dp) ∧ fgt dp (FNum 20) = true ∧
          is_female c = Ok (Some sex)).
Proof.
  intros H0 H. split; [by apply cell46_retains|]. intros c.
  apply filter_cols_Ok in H as (_ & -> & _).
  rewrite list_elem_of_filter, kept_true, !hl_and_true.
  unfold lit.
  rewrite (compare_lit_true (call_rate c) fge), (compare_lit_true (dp_stats_mean c) fgt),
    (is_defined_true (is_female c)).
  split.
  - intros [[[(cr & ? & ?) (dp & ? & ?)] (sex & ?)] ?]. split; [done|].
    exists cr, dp, sex. done.
  - intros [? (cr & dp & sex & ? & ? & ? & ? & ?)]. split; [|done]. eauto 10.
Qed.

(** ** The variants given to sex imputation (cells 53 and 56) *)

Section SexImputation.
Variable is_snp : string → string → bool.
Variable hl_impute_sex : MatrixTable → float64 → float64 → float64 → res table.

Lemma sex_qc_filter_true (g : struct) (r : Row) :
  sex_qc_filter is_snp g r = Ok (Some true) ↔
  n_alleles r = Ok (Some 2) ∧
  (∃ ref alt, allele 0 r = Ok (Some ref) ∧ allele 1 r = Ok (Some alt) ∧
              is_snp ref alt = true) ∧
  (∃ f, mean_alt_freq r = Ok (Some f) ∧ fgt f (FNum (1 # 1000)) = true) ∧
  (∃ f, GT_call_rate r = Ok (Some f) ∧ fgt f (FNum (97 # 100)) = true).
Proof.
  unfold sex_qc_filter, lit. rewrite !hl_and_true.
  rewrite (compare_lit_true (n_alleles r) Z.eqb),
    (compare_lit_true (mean_alt_freq r) fgt), (compare_lit_true (GT_call_rate r) fgt).
  split.
  - intros [[[(n & Hn & ->%Z.eqb_eq) Hsnp] ?] ?]. split_and!; try done.
    apply bind_Ok in Hsnp as (a0 & Ha0 & Hsnp).
    apply bind_Ok in Hsnp as (a1 & Ha1 & [= Hsnp]).
    apply lift2_Some in Hsnp as (ref & alt & -> & -> & Hsnp). eauto.
  - intros (Hn & (ref & alt & Hr & Ha & Hsnp) & ? & ?). split_and!; try done.
    + exists 2. done.
    + rewrite Hr, Ha. simpl. by rewrite Hsnp.
Qed.

(** C10: the matrix table whose calls cell 56 gives to [impute_sex] is
    the one cell 53 has filtered, and each of its variants has exactly
    two alleles, is a SNP, has a mean alternate-allele frequency (the
    mean of [n_alt_alleles] over 2) above 0.001 and a fraction of
    defined calls above 0.97. *)
Theorem sex_imputation_input (mt0 mt : MatrixTable) :
  cell53 is_snp mt0 = Ok mt →
  cell56 hl_impute_sex mt =
    hl_impute_sex mt (FNum (5 # 100)) (FNum (5 # 10)) (FNum (75 # 100)) ∧
  ∀ r, r ∈ rows mt →
    n_alleles r = Ok (Some 2) ∧
    (∃ ref alt, allele 0 r = Ok (Some ref) ∧ allele 1 r = Ok (Some alt) ∧
                is_snp ref alt = true) ∧
    (∃ f, mean_alt_freq r = Ok (Some f) ∧ fgt f (FNum (1 # 1000)) = true) ∧
    (∃ f, GT_call_rate r = Ok (Some f) ∧ fgt f (FNum (97 # 100)) = true).
Proof.
  intros H. split; [done|]. intros r Hr.
  apply filter_rows_Ok in H as (_ & _ & H). rewrite H in Hr.
  apply list_elem_of_filter in Hr as [Hr _].
  apply kept_true in Hr. by apply sex_qc_filter_true in Hr.
Qed.
End SexImputation.

(** ** Genotype QC (cells 117 and 119) *)

Lemma call_types_exclusive (gt : call) :
  (is_hom_ref gt = true → is_het gt = false ∧ is_hom_var gt = false) ∧
  (is_het gt = true → is_hom_ref gt = false ∧ is_hom_var gt = false) ∧
  (is_hom_var gt = true → is_hom_ref gt = false ∧ is_het gt = false).
Proof.
  destruct gt as [|a [|b [|? ?]]]; simpl; try done.
  - repeat case_bool_decide; simpl; done.
  - repeat case_bool_decide; simpl; try done; subst; done.
Qed.

Lemma call_type_lit_true (e : struct) (is_type : call → bool) :
  (let* g := GT e in Ok (is_type <$> g)) = Ok (Some true) ↔
  ∃ gt, GT e = Ok (Some gt) ∧ is_type gt = true.
Proof.
  split.
  - intros H. apply bind_Ok in H as ([gt|] & -> & H); simpl in H; [|done].
    injection H as H. eauto.
  - intros (gt & -> & H). simpl. by rewrite H.
Qed.

Lemma filter_condition_ab_true (e : struct) :
  filter_condition_ab e = Ok (Some true) →
  ∃ gt ab, GT e = Ok (Some gt) ∧ AB e = Ok (Some ab) ∧
    (is_hom_ref gt = true ∧ fle ab (FNum (1 # 10)) = true ∨
     is_het gt = true ∧ fge ab (FNum (25 # 100)) = true ∧ fle ab (FNum (75 # 100)) = true ∨
     is_hom_var gt = true ∧ fge ab (FNum (9 # 10)) = true).
Proof.
  unfold filter_condition_ab, lit. intros H.
  apply hl_or_true in H as [H|H]; [apply hl_or_true in H as [H|H]|];
    rewrite !hl_and_true in H;
    rewrite ?(call_type_lit_true e), ?(compare_lit_true (AB e) fle),
      ?(compare_lit_true (AB e) fge) in H.
  - destruct H as [(gt & ? & ?) (ab & ? & ?)]. exists gt, ab. auto.
  - destruct H as [[(gt & ? & ?) (ab & Hab & ?)] (ab' & Hab' & ?)].
    rewrite Hab in Hab'. injection Hab' as <-. exists gt, ab. auto 10.
  - destruct H as [(gt & ? & ?) (ab & ? & ?)]. exists gt, ab. auto 10.
Qed.

Lemma annotate_struct_one {C} (name : string) (f : C → res (option val)) (ctx : C)
    (s s' : struct) :
  annotate_struct [(name, f)] ctx s = Ok s' →
  ∃ v, f ctx = Ok v ∧ s' = <[name := v]> s.
Proof.
  unfold annotate_struct, eval_fields. simpl. intros H.
  apply bind_Ok in H as (vs & Hvs & [= <-]).
  apply bind_Ok in Hvs as ([n v] & Hv & [= <-]).
  apply bind_Ok in Hv as (v' & Hv & [= <- <-]). eauto.
Qed.

Lemma allele_balance_insert_AB (e : struct) (v : option val) :
  allele_balance (<["AB" := v]> e) = allele_balance e.
Proof. unfold allele_balance, getattr. by rewrite lookup_insert_ne. Qed.

Lemma cell117_entry (mt mt' : MatrixTable) (r : Row) (e : struct) :
  cell117 mt = Ok mt' → r ∈ rows mt' → Some e ∈ row_entries r →
  ∃ ab, allele_balance e = Ok ab ∧ e !! "AB" = Some (vfloat ab).
Proof.
  intros H Hr He.
  destruct (map_entries_elem _ _ _ _ _ H Hr He) as (r0 & c & e0 & _ & _ & _ & _ & Hf).
  destruct e0 as [e0|]; simpl in Hf; [|done].
  apply res_map_Ok in Hf as (e1 & Hf & [= ->]).
  apply annotate_struct_one in Hf as (v & Hv & ->). simpl in Hv.
  apply res_map_Ok in Hv as (ab & Hab & ->).
  exists ab. rewrite allele_balance_insert_AB. split; [done|].
  by rewrite lookup_insert_eq.
Qed.

Lemma mapM_as_int_ints (ds : list (option Z)) :
  mapM as_int ((λ d : option Z, VInt <$> d) <$> ds) = Ok ds.
Proof.
  induction ds as [|[d|] ds IH]; [done| |]; rewrite fmap_cons; simpl; by rewrite IH.
Qed.

Lemma wrap32_small (z : Z) : - 2 ^ 31 ≤ z < 2 ^ 31 → wrap32 z = z.
Proof.
  intros Hz. unfold wrap32, wrap.
  change (2 ^ (32 - 1)) with (2 ^ 31). change (2 ^ 32) with (2 * 2 ^ 31).
  rewrite Z.mod_small; lia.
Qed.

Lemma fdiv_ints (a t : Z) :
  t ≠ 0 → fdiv (float_of_Z a) (float_of_Z t) = FNum (inject_Z a / inject_Z t).
Proof.
  intros Ht. unfold fdiv, float_of_Z.
  destruct (Qeq_bool (inject_Z t) 0) eqn:Hz; [|done].
  apply Qeq_bool_iff in Hz. unfold Qeq in Hz. simpl in Hz. lia.
Qed.

(** The allele balance of an entry whose [AD] is an array of depths. *)
Lemma allele_balance_depths (e : struct) (ds : list (option Z)) (ab : option float64) :
  e !! "AD" = Some (Some (VArray ((λ d : option Z, VInt <$> d) <$> ds))) →
  allele_balance e = Ok ab →
  ∃ alt, ds !! 1%nat = Some alt ∧
    ab = lift2 fdiv (float_of_Z <$> alt)
           (Some (float_of_Z (wrap32 (foldr Z.add 0 (omap id ds))))).
Proof.
  unfold allele_balance, getattr, hl_index, hl_sum_int32. intros -> H. simpl in H.
  rewrite list_lookup_fmap, mapM_as_int_ints in H.
  destruct (ds !! 1%nat) as [alt|]; [|done]. simpl in H.
  exists alt. split; [done|]. destruct alt; simpl in H; by injection H as <-.
Qed.

(** C6: the field [AB] that cell 117 writes is [AD[1]] divided by the sum
    of [AD]: for an [AD] with depths [ds], of sum [total], it is the float
    division of [ds[1]] by [total] (taken in 32 bits), which is the
    rational [ds[1] / total] when [total] fits in 32 bits and is not 0, and
    NaN for [0 / 0]; it is missing when [AD] or [AD[1]] is.  An entry that
    the genotype filter of cell 119 retains is an entry of cell 117 and
    has a call type whose allele-balance condition holds: [AB <= 0.1] for
    a homozygous-reference call, [0.25 <= AB <= 0.75] for a heterozygous
    call, [AB >= 0.9] for a homozygous-variant call. *)
Theorem genotype_filter_allele_balance (mt0 mt1 mt2 : MatrixTable) :
  cell117 mt0 = Ok mt1 →
  cell119 mt1 = Ok mt2 →
  (∀ r e, r ∈ rows mt1 → Some e ∈ row_entries r →
     (∃ ab, allele_balance e = Ok ab ∧ e !! "AB" = Some (vfloat ab)) ∧
     (e !! "AD" = Some None → e !! "AB" = Some None) ∧
     (∀ ds, e !! "AD" = Some (Some (VArray ((λ d : option Z, VInt <$> d) <$> ds))) →
        let total := foldr Z.add 0 (omap id ds) in
        ∃ alt, ds !! 1%nat = Some alt ∧
          e !! "AB" = Some (vfloat (lift2 fdiv (float_of_Z <$> alt)
                                               (Some (float_of_Z (wrap32 total))))) ∧
          (alt = None → e !! "AB" = Some None) ∧
          (∀ a, alt = Some a → - 2 ^ 31 ≤ total < 2 ^ 31 → total ≠ 0 →
                e !! "AB" = Some (Some (VFloat (FNum (inject_Z a / inject_Z total))))) ∧
          (alt = Some 0 → total = 0 → e !! "AB" = Some (Some (VFloat FNaN))))) ∧
  (∀ r e, r ∈ rows mt2 → Some e ∈ row_entries r →
     (∃ r1, r1 ∈ rows mt1 ∧ Some e ∈ row_entries r1) ∧
     ∃ gt ab,
       GT e = Ok (Some gt) ∧ e !! "AB" = Some (Some (VFloat ab)) ∧
       AB e = Ok (Some ab) ∧ allele_balance e = Ok (Some ab) ∧
       (is_hom_ref gt = true ∨ is_het gt = true ∨ is_hom_var gt = true) ∧
       (is_hom_ref gt = true → fle ab (FNum (1 # 10)) = true) ∧
       (is_het gt = true →
          fge ab (FNum (25 # 100)) = true ∧ fle ab (FNum (75 # 100)) = true) ∧
       (is_hom_var gt = true → fge ab (FNum (9 # 10)) = true)).
Proof.
  intros H1 H2. split.
  - intros r e Hr He.
    destruct (cell117_entry _ _ _ _ H1 Hr He) as (ab & Hbal & HAB). split_and!.
    + eauto.
    + intros Had. unfold allele_balance, getattr in Hbal. rewrite Had in Hbal.
      simpl in Hbal. injection Hbal as <-. done.
    + intros ds Had total.
      destruct (allele_balance_depths _ _ _ Had Hbal) as (alt & Halt & ->).
      exists alt. split_and!; [done..| | |].
      * intros ->. by rewrite HAB.
      * intros a -> Hrange Ht. rewrite HAB, <- (fdiv_ints a total Ht).
        fold total. by rewrite wrap32_small.
      * intros -> Ht. rewrite HAB. fold total. by rewrite Ht.
  - intros r2 e Hr2 He.
    destruct (filter_entries_kept _ _ _ _ _ _ H2 Hr2 He) as (r1 & c & Hr1 & _ & He1 & _ & Hp).
    split; [eauto|].
    apply hl_and_true in Hp as [_ Hp].
    apply filter_condition_ab_true in Hp as (gt & ab & Hgt & Hab & Hcond).
    destruct (cell117_entry _ _ _ _ H1 Hr1 He1) as (ab' & Hbal & HAB).
    assert (ab' = Some ab) as ->.
    { unfold AB, getattr in Hab. rewrite HAB in Hab. simpl in Hab.
      destruct ab' as [x|]; simpl in Hab; congruence. }
    exists gt, ab. split_and!; try done.
    + tauto.
    + intros Ht. destruct (call_types_exclusive gt) as (Hx & _ & _).
      destruct (Hx Ht) as [? ?]. destruct Hcond as [[? ?]|[(? & ? & ?)|[? ?]]]; congruence.
    + intros Ht. destruct (call_types_exclusive gt) as (_ & Hx & _).
      destruct (Hx Ht) as [? ?]. destruct Hcond as [[? ?]|[(? & ? & ?)|[? ?]]]; try congruence.
      done.
    + intros Ht. destruct (call_types_exclusive gt) as (_ & _ & Hx).
      destruct (Hx Ht) as [? ?]. destruct Hcond as [[? ?]|[(? & ? & ?)|[? ?]]]; congruence.
Qed.

(** ** The annotation operations *)

Lemma agree_except_refl (names : list string) (s : struct) : agree_except names s s.
Proof. by intros k _. Qed.

Lemma write_fields_lookup_ne (vs : list (string * option val)) (s : struct) (k : string) :
  k ∉ vs.*1 → write_fields vs s !! k = s !! k.
Proof.
  induction vs as [|[n v] vs IH]; [done|].
  rewrite fmap_cons. intros [Hk Hks]%not_elem_of_cons. simpl.
  rewrite lookup_insert_ne by done. auto.
Qed.

Lemma eval_fields_names {C} (kw : list (string * (C → res (option val)))) (ctx : C) vs :
  eval_fields kw ctx = Ok vs → vs.*1 = kw.*1.
Proof.
  unfold eval_fields. intros H. apply mapM_Ok in H.
  induction H as [|[n f] [n' v] kw vs H _ IH]; [done|]. rewrite !fmap_cons.
  apply bind_Ok in H as (v' & _ & [= <- <-]). f_equal. exact IH.
Qed.

Lemma annotate_struct_agree {C} (kw : list (string * (C → res (option val)))) (ctx : C)
    (s s' : struct) :
  annotate_struct kw ctx s = Ok s' → agree_except (kw.*1) s s'.
Proof.
  unfold annotate_struct. intros H. apply bind_Ok in H as (vs & Hvs & [= <-]).
  intros k Hk. apply write_fields_lookup_ne.
  by rewrite (eval_fields_names _ _ _ Hvs).
Qed.

Lemma frame_rows_refl (names : list string) (rs : list Row) :
  Forall2 (λ r r',
             agree_except names (row_fields r) (row_fields r') ∧
             Forall2 (option_Forall2 (agree_except names)) (row_entries r) (row_entries r'))
          rs rs.
Proof.
  apply Forall_Forall2_diag, Forall_forall. intros r _.
  split; [apply agree_except_refl|].
  apply Forall_Forall2_diag, Forall_forall. intros [e|] _; constructor.
  apply agree_except_refl.
Qed.

Lemma frame_cols_refl (names : list string) (cs : list struct) :
  Forall2 (agree_except names) cs cs.
Proof. apply Forall_Forall2_diag, Forall_forall. intros c _. apply agree_except_refl. Qed.

Lemma annotate_globals_frame kw mt mt' :
  annotate_globals kw mt = Ok mt' → frame (kw.*1) mt mt'.
Proof.
  unfold annotate_globals. intros H. apply bind_Ok in H as (g & Hg & [= <-]).
  split_and!; simpl.
  - by apply annotate_struct_agree in Hg.
  - apply frame_cols_refl.
  - apply frame_rows_refl.
Qed.

Lemma annotate_cols_frame kw mt mt' :
  annotate_cols kw mt = Ok mt' → frame (kw.*1) mt mt'.
Proof.
  unfold annotate_cols. intros H. apply bind_Ok in H as (cs & Hcs & [= <-]).
  split_and!; simpl.
  - apply agree_except_refl.
  - apply mapM_Ok in Hcs. eapply Forall2_impl; [exact Hcs|].
    intros c c' Hc. by apply annotate_struct_agree in Hc.
  - apply frame_rows_refl.
Qed.

Lemma annotate_rows_frame kw mt mt' :
  annotate_rows kw mt = Ok mt' → frame (kw.*1) mt mt'.
Proof.
  unfold annotate_rows. intros H. apply bind_Ok in H as (rs & Hrs & [= <-]).
  split_and!; simpl.
  - apply agree_except_refl.
  - apply frame_cols_refl.
  - apply mapM_Ok in Hrs. eapply Forall2_impl; [exact Hrs|].
    intros r r' Hr. apply res_map_Ok in Hr as (fs & Hfs & ->). simpl.
    split; [by apply annotate_struct_agree in Hfs|].
    apply Forall_Forall2_diag, Forall_forall. intros [e|] _; constructor.
    apply agree_except_refl.
Qed.

Lemma annotate_entries_frame kw mt mt' :
  annotate_entries kw mt = Ok mt' →
  Forall (λ r, length (row_entries r) = length (cols mt)) (rows mt) →
  frame (kw.*1) mt mt'.
Proof.
  intros H Hwf. apply map_entries_Ok in H as (Hg & Hc & Hr).
  split_and!.
  - rewrite Hg. apply agree_except_refl.
  - rewrite Hc. apply frame_cols_refl.
  - apply Forall2_same_length_lookup. split; [by eapply Forall2_length|].
    intros i r r' Hi Hi'.
    destruct (Forall2_lookup_lr _ _ _ _ _ _ Hr Hi Hi') as [-> Hes].
    split; [apply agree_except_refl|].
    assert (length (row_entries r) = length (cols mt)) as Hlen.
    { eapply Forall_lookup_1 in Hwf; eauto. }
    apply Forall2_same_length_lookup. split.
    { apply Forall2_length in Hes. rewrite length_zip_with in Hes. lia. }
    intros j e e' Hj Hj'.
    destruct (lookup_lt_is_Some_2 (cols mt) j) as [c Hcj].
    { rewrite <- Hlen. by eapply lookup_lt_Some. }
    assert (zip (cols mt) (row_entries r) !! j = Some (c, e)) as Hz.
    { apply lookup_zip_with_Some. eauto. }
    pose proof (Forall2_lookup_lr _ _ _ _ _ _ Hes Hz Hj') as Hf. simpl in Hf.
    destruct e as [x|]; simpl in Hf.
    + apply res_map_Ok in Hf as (x' & Hx & ->). constructor.
      by apply annotate_struct_agree in Hx.
    + injection Hf as <-. constructor.
Qed.

Lemma write_fields_lookup (vs : list (string * option val)) (s : struct) (n : string) :
  n ∈ vs.*1 → is_Some (write_fields vs s !! n).
Proof.
  induction vs as [|[m v] vs IH]; [by intros ?%elem_of_nil|].
  rewrite fmap_cons. intros Hn. simpl.
  destruct (decide (m = n)) as [->|Hne].
  - rewrite lookup_insert_eq. eauto.
  - rewrite lookup_insert_ne by done. apply IH.
    apply elem_of_cons in Hn as [Hn|Hn]; [by subst | done].
Qed.

Lemma annotate_struct_written {C} (kw : list (string * (C → res (option val)))) (ctx : C)
    (s s' : struct) (n : string) :
  annotate_struct kw ctx s = Ok s' → n ∈ kw.*1 → is_Some (s' !! n).
Proof.
  unfold annotate_struct. intros H Hn. apply bind_Ok in H as (vs & Hvs & [= <-]).
  apply write_fields_lookup. by rewrite (eval_fields_names _ _ _ Hvs).
Qed.

Lemma annotate_globals_written kw mt mt' :
  annotate_globals kw mt = Ok mt' → has_fields Globals (kw.*1) mt'.
Proof.
  unfold annotate_globals. intros H n Hn. apply bind_Ok in H as (g & Hg & [= <-]).
  simpl. by eapply annotate_struct_written.
Qed.

Lemma annotate_cols_written kw mt mt' :
  annotate_cols kw mt = Ok mt' → has_fields Cols (kw.*1) mt'.
Proof.
  unfold annotate_cols. intros H c n Hc Hn. apply bind_Ok in H as (cs & Hcs & [= <-]).
  simpl in Hc. apply mapM_Ok in Hcs. apply list_elem_of_lookup in Hc as [i Hi].
  destruct (Forall2_lookup_r _ _ _ _ _ Hcs Hi) as (c0 & _ & Hc0).
  by eapply annotate_struct_written.
Qed.

Lemma annotate_rows_written kw mt mt' :
  annotate_rows kw mt = Ok mt' → has_fields Rows (kw.*1) mt'.
Proof.
  unfold annotate_rows. intros H r n Hr Hn. apply bind_Ok in H as (rs & Hrs & [= <-]).
  simpl in Hr. apply mapM_Ok in Hrs. apply list_elem_of_lookup in Hr as [i Hi].
  destruct (Forall2_lookup_r _ _ _ _ _ Hrs Hi) as (r0 & _ & Hr0).
  apply res_map_Ok in Hr0 as (fs & Hfs & ->). simpl.
  by eapply annotate_struct_written.
Qed.

Lemma annotate_entries_written kw mt mt' :
  annotate_entries kw mt = Ok mt' → has_fields Entries (kw.*1) mt'.
Proof.
  intros H r e n Hr He Hn.
  destruct (map_entries_elem _ _ _ _ _ H Hr He) as (r0 & c & e0 & _ & _ & _ & _ & Hf).
  destruct e0 as [e0|]; simpl in Hf; [|done].
  apply res_map_Ok in Hf as (e1 & Hf & [= ->]).
  by eapply annotate_struct_written.
Qed.

Lemma frame_counts names mt mt' :
  frame names mt mt' → n_rows mt' = n_rows mt ∧ n_cols mt' = n_cols mt.
Proof.
  intros (_ & Hc & Hr). unfold n_rows, n_cols.
  apply Forall2_length in Hc, Hr. done.
Qed.

(** ** The annotation cells *)

Section Annotations.
Variable sa : table.
Variable LCR_intervals : option val → option val.
Variables imputed_sex pca_scores : table.

(** C9 (amended): an annotation cell writes the fields it names and no
    other: after the cell the named fields exist, every field of another
    name keeps its value (and stays absent if it was absent), in the
    globals, in every column, row and entry, and the numbers of rows and of
    columns do not change.  A field that is named and exists already is
    replaced. *)
Theorem annotation_cells_frame (lv : level) (names : list string)
    (cell : MatrixTable → res MatrixTable) (mt mt' : MatrixTable) :
  (lv, names, cell) ∈ annotation_cells sa LCR_intervals imputed_sex pca_scores →
  rectangular mt →
  cell mt = Ok mt' →
  has_fields lv names mt' ∧ frame names mt mt' ∧
  n_rows mt' = n_rows mt ∧ n_cols mt' = n_cols mt.
Proof.
  intros Hin Hwf H.
  assert (has_fields lv names mt' ∧ frame names mt mt') as [Hnew Hframe];
    [|split_and!; [done | done | by eapply frame_counts..]].
  unfold annotation_cells in Hin.
  repeat (apply elem_of_cons in Hin as [[= -> -> ->]|Hin]);
    [split; [by apply annotate_cols_written in H | by apply annotate_cols_frame in H]
    |split; [by apply annotate_cols_written in H | by apply annotate_cols_frame in H]
    |split; [by apply annotate_cols_written in H | by apply annotate_cols_frame in H]
    |split; [by apply annotate_cols_written in H | by apply annotate_cols_frame in H]
    |split; [by apply annotate_globals_written in H | by apply annotate_globals_frame in H]
    |split; [by apply annotate_rows_written in H | by apply annotate_rows_frame in H]
    |split; [by apply annotate_rows_written in H | by apply annotate_rows_frame in H]
    |split; [by apply annotate_rows_written in H | by apply annotate_rows_frame in H]
    |split; [by apply annotate_entries_written in H
            |by apply annotate_entries_frame in H]
    |by apply elem_of_nil in Hin].
Qed.
End Annotations.

(** ** Samples and variants are only removed *)

Lemma shrinks_refl mt : shrinks mt mt.
Proof. split; reflexivity. Qed.

Lemma shrinks_trans mt1 mt2 mt3 : shrinks mt1 mt2 → shrinks mt2 mt3 → shrinks mt1 mt3.
Proof. intros [? ?] [? ?]. split; etrans; eauto. Qed.

Lemma shrinks_counts mt mt' :
  shrinks mt mt' → (n_cols mt' ≤ n_cols mt)%nat ∧ (n_rows mt' ≤ n_rows mt)%nat.
Proof.
  intros [Hs Hv]. apply sublist_length in Hs, Hv.
  unfold samples, variants in *. rewrite !length_fmap in *. done.
Qed.

Lemma variants_row_fields mt mt' :
  row_fields <$> rows mt' = row_fields <$> rows mt → variants mt' = variants mt.
Proof.
  unfold variants. intros H.
  change (λ r, (row_fields r !! "locus", row_fields r !! "alleles"))
    with ((λ fs : struct, (fs !! "locus", fs !! "alleles")) ∘ row_fields).
  by rewrite !list_fmap_compose, H.
Qed.

Lemma filter_cols_shrinks p keep mt mt' : filter_cols p keep mt = Ok mt' → shrinks mt mt'.
Proof.
  intros (_ & Hc & Hr)%filter_cols_Ok. split.
  - unfold samples. rewrite Hc. apply fmap_sublist, sublist_filter.
  - by rewrite (variants_row_fields _ _ Hr).
Qed.

Lemma filter_rows_shrinks p keep mt mt' : filter_rows p keep mt = Ok mt' → shrinks mt mt'.
Proof.
  intros (_ & Hc & Hr)%filter_rows_Ok. split.
  - unfold samples. by rewrite Hc.
  - unfold variants. rewrite Hr. apply fmap_sublist, sublist_filter.
Qed.

Lemma map_entries_shrinks f mt mt' : map_entries f mt = Ok mt' → shrinks mt mt'.
Proof.
  intros (_ & Hc & Hr)%map_entries_Ok. split.
  - unfold samples. by rewrite Hc.
  - rewrite (variants_row_fields mt mt'); [done|].
    induction Hr as [|r r' rs rs' [Hf _] _ IH]; [done|].
    rewrite !fmap_cons. by f_equal.
Qed.

(** An annotation that names no key field leaves the samples and the
    variants as they are. *)
Lemma frame_shrinks names mt mt' :
  frame names mt mt' →
  "s" ∉ names → "locus" ∉ names → "alleles" ∉ names →
  shrinks mt mt'.
Proof.
  intros (_ & Hc & Hr) Hs Hl Ha.
  assert (samples mt' = samples mt) as Hsamples.
  { unfold samples. induction Hc as [|c c' cs cs' H _ IH]; [done|].
    rewrite !fmap_cons. f_equal; auto. }
  assert (variants mt' = variants mt) as Hvariants.
  { unfold variants. induction Hr as [|r r' rs rs' [H _] _ IH]; [done|].
    rewrite !fmap_cons. f_equal; [|done]. f_equal; auto. }
  unfold shrinks. by rewrite Hsamples, Hvariants.
Qed.

Lemma run_Raise (steps : list (MatrixTable → res MatrixTable)) (e : exn) :
  foldl (λ acc step, bind acc step) (Raise e) steps = Raise e.
Proof. induction steps as [|step steps IH]; simpl; auto. Qed.

Lemma run_cons step steps mt : run (step :: steps) mt = bind (step mt) (run steps).
Proof.
  unfold run. simpl. destruct (step mt) as [mt'|e]; simpl; [done|]. apply run_Raise.
Qed.

Lemma run_app steps1 steps2 mt : run (steps1 ++ steps2) mt = bind (run steps1 mt) (run steps2).
Proof.
  revert mt. induction steps1 as [|step steps1 IH]; intros mt; [done|].
  rewrite <- app_comm_cons, !run_cons.
  destruct (step mt) as [mt'|e]; simpl; [apply IH | done].
Qed.

Section OnlyRemove.
Variable is_snp : string → string → bool.
Variable sa : table.
Variable sample_qc_of : MatrixTable → struct → res (option val).
Variable variant_qc_of : MatrixTable → Row → res (option val).
Variable hl_impute_sex : MatrixTable → float64 → float64 → float64 → res table.
Variable hl_hwe_normalized_pca : MatrixTable → nat → bool → res table.
Variable pc_relate_kin :
  MatrixTable → table → res (option string → option string → float64).
Variable LCR_intervals : option val → option val.
Variables vep_of cadd_of : MatrixTable → Row → res (option val).

Local Abbreviation steps :=
  (qc_steps is_snp sa sample_qc_of variant_qc_of hl_impute_sex
     hl_hwe_normalized_pca pc_relate_kin LCR_intervals vep_of cadd_of).

Ltac key_names := simpl; rewrite ?not_elem_of_cons; split_and?; try done; apply not_elem_of_nil.

Ltac shrinks_of H :=
  first
    [ by apply filter_cols_shrinks in H
    | by apply filter_rows_shrinks in H
    | by apply map_entries_shrinks in H
    | apply annotate_cols_frame in H; apply (frame_shrinks _ _ _ H); key_names
    | apply annotate_rows_frame in H; apply (frame_shrinks _ _ _ H); key_names
    | apply annotate_globals_frame in H; apply (frame_shrinks _ _ _ H); key_names ].

Lemma qc_step_shrinks step mt mt' : step ∈ steps → step mt = Ok mt' → shrinks mt mt'.
Proof.
  unfold steps, qc_steps. intros Hin H.
  repeat (apply elem_of_cons in Hin as [->|Hin]); try by apply elem_of_nil in Hin.
  all: try (shrinks_of H).
  - apply bind_Ok in H as (t & _ & H). shrinks_of H.
  - apply bind_Ok in H as (t & _ & H). apply bind_Ok in H as (ht & _ & H). shrinks_of H.
  - apply bind_Ok in H as (t & _ & H). shrinks_of H.
Qed.

(** C8 (amended): every cell after the multi-allelic split only removes
    samples and variants: after any sequence of these cells the samples
    and the variants are among those before it, in the same order, so
    their counts do not increase.  (The split of cell 28 itself can turn
    one variant into several.) *)
Theorem qc_steps_only_remove (cells : list (MatrixTable → res MatrixTable))
    (mt mt' : MatrixTable) :
  Forall (λ cell, cell ∈ steps) cells →
  run cells mt = Ok mt' →
  shrinks mt mt' ∧ (n_cols mt' ≤ n_cols mt)%nat ∧ (n_rows mt' ≤ n_rows mt)%nat.
Proof.
  intros Hcells Hrun.
  assert (shrinks mt mt') as H; [|split; [done | by apply shrinks_counts]].
  revert mt Hrun. induction Hcells as [|cell cells Hcell _ IH]; intros mt Hrun.
  - injection Hrun as <-. apply shrinks_refl.
  - rewrite run_cons in Hrun. apply bind_Ok in Hrun as (mt1 & H1 & Hrun).
    eapply shrinks_trans; [by eapply qc_step_shrinks | by apply IH].
Qed.
End OnlyRemove.

(** ** Exceptions *)

(** A run raises [e] exactly when one of its cells, reached with every
    earlier cell having returned, raises [e]. *)
Lemma run_Raise_iff (steps : list (MatrixTable → res MatrixTable)) (mt : MatrixTable)
    (e : exn) :
  run steps mt = Raise e ↔
  ∃ k step mt_k,
    steps !! k = Some step ∧ run (take k steps) mt = Ok mt_k ∧ step mt_k = Raise e.
Proof.
  split.
  - revert mt. induction steps as [|step steps IH]; intros mt H; [done|].
    rewrite run_cons in H. destruct (step mt) as [mt1|e1] eqn:Hstep; simpl in H.
    + destruct (IH _ H) as (k & step' & mt_k & Hk & Hrun & Hraise).
      exists (S k), step', mt_k. split_and!; try done.
      simpl. by rewrite run_cons, Hstep.
    + injection H as ->. exists 0%nat, step, mt. done.
  - intros (k & step & mt_k & Hk & Hrun & Hraise).
    rewrite <- (take_drop_middle steps k step Hk), run_app, Hrun. simpl.
    by rewrite run_cons, Hraise.
Qed.

(** The first exception of a traversal. *)
Lemma mapM_Raise {A B} (f : A → res B) (l : list A) (e : exn) :
  mapM f l = Raise e ↔ first_raise f l e.
Proof.
  induction l as [|a l IH]; simpl.
  - split; [done|]. intros (l1 & x & l2 & Heq & _). by destruct l1.
  - destruct (f a) as [b|e0] eqn:Hfa; simpl.
    + destruct (mapM f l) as [k|e1]; simpl.
      * split; [done|]. intros (l1 & x & l2 & Heq & Hall & Hx).
        destruct l1 as [|y l1]; simpl in Heq; injection Heq as -> ->; [congruence|].
        inversion Hall; subst.
        assert (Raise e = (Ok k : res (list B))) as Hk; [|done].
        symmetry. apply IH. exists l1, x, l2. done.
      * split.
        -- intros [= ->]. destruct (proj1 IH eq_refl) as (l1 & x & l2 & -> & Hall & Hx).
           exists (a :: l1), x, l2. split_and!; [done| |done]. constructor; eauto.
        -- intros (l1 & x & l2 & Heq & Hall & Hx).
           destruct l1 as [|y l1]; simpl in Heq; injection Heq as -> ->; [congruence|].
           inversion Hall; subst. apply IH. exists l1, x, l2. done.
    + split.
      * intros [= ->]. exists [], a, l. done.
      * intros (l1 & x & l2 & Heq & Hall & Hx).
        destruct l1 as [|y l1]; simpl in Heq; injection Heq as -> ->; [congruence|].
        inversion Hall as [|? ? [v Hv] ?]; subst. congruence.
Qed.

Lemma first_raise_ext {A B C} (f : A → res B) (g : A → res C) (l : list A) (e : exn) :
  (∀ x e', g x = Raise e' ↔ f x = Raise e') →
  first_raise g l e ↔ first_raise f l e.
Proof.
  intros Hfg.
  assert (∀ x, (∃ v, g x = Ok v) ↔ (∃ v, f x = Ok v)) as Hok.
  { intros x. pose proof (Hfg x) as H.
    destruct (g x) as [c|e1] eqn:Hg, (f x) as [b|e2] eqn:Hf; split; intros [v Hv]; eauto.
    - discriminate (proj2 (H e2) eq_refl).
    - discriminate (proj1 (H e1) eq_refl).
    - done.
    - done. }
  split; intros (l1 & x & l2 & -> & Hall & Hx); exists l1, x, l2; split_and!; try done.
  - eapply Forall_impl; [exact Hall|]. intros y. apply Hok.
  - by apply Hfg.
  - eapply Forall_impl; [exact Hall|]. intros y. apply Hok.
  - by apply Hfg.
Qed.

Lemma annotate_struct_one_Raise {C} (name : string) (f : C → res (option val)) (ctx : C)
    (s : struct) (e : exn) :
  annotate_struct [(name, f)] ctx s = Raise e ↔ f ctx = Raise e.
Proof.
  unfold annotate_struct, eval_fields. simpl. destruct (f ctx); simpl; split; congruence.
Qed.

(** A column annotation by one routine raises what the routine raises on
    the first column on which it raises; likewise for a row annotation. *)
Lemma annotate_cols_one_Raise name f mt e :
  annotate_cols [(name, f)] mt = Raise e ↔
  first_raise (λ c, f (globals mt, c)) (cols mt) e.
Proof.
  unfold annotate_cols.
  rewrite <- (first_raise_ext _ (λ c, annotate_struct [(name, f)] (globals mt, c) c))
    by (intros; apply annotate_struct_one_Raise).
  rewrite <- mapM_Raise. destruct (mapM _ _); simpl; split; congruence.
Qed.

Lemma annotate_rows_one_Raise name f mt e :
  annotate_rows [(name, f)] mt = Raise e ↔
  first_raise (λ r, f (globals mt, r)) (rows mt) e.
Proof.
  unfold annotate_rows.
  rewrite <- (first_raise_ext _
                (λ r, res_map (set_fields r)
                        (annotate_struct [(name, f)] (globals mt, r) (row_fields r)))).
  - rewrite <- mapM_Raise. destruct (mapM _ _); simpl; split; congruence.
  - intros r e'.
    rewrite <- (annotate_struct_one_Raise name f (globals mt, r) (row_fields r)).
    unfold res_map. destruct (annotate_struct _ _ _); simpl; split; congruence.
Qed.

Section Exceptions.
Variable is_snp : string → string → bool.
Variable min_rep : option val → string → string → option val * list (option val).
Variable downcode : nat → struct → struct.
Variable sample_qc_of : MatrixTable → struct → res (option val).
Variable variant_qc_of : MatrixTable → Row → res (option val).
Variable hl_impute_sex : MatrixTable → float64 → float64 → float64 → res table.
Variable hl_hwe_normalized_pca : MatrixTable → nat → bool → res table.
Variable pc_relate_kin :
  MatrixTable → table → res (option string → option string → float64).
Variables vep_of cadd_of : MatrixTable → Row → res (option val).
Variable read_matrix_table : res MatrixTable.
Variable import_table : res table.
Variable import_locus_intervals : res (option val → option val).

Local Abbreviation nb :=
  (notebook is_snp min_rep downcode sample_qc_of variant_qc_of hl_impute_sex
     hl_hwe_normalized_pca pc_relate_kin vep_of cadd_of
     read_matrix_table import_table import_locus_intervals).

Local Abbreviation steps sa LCR_intervals :=
  (notebook_steps is_snp min_rep downcode sa sample_qc_of variant_qc_of
     hl_impute_sex hl_hwe_normalized_pca pc_relate_kin LCR_intervals
     vep_of cadd_of).

Local Abbreviation before_LCR sa :=
  (cells_38_to_102 is_snp sa sample_qc_of variant_qc_of hl_impute_sex
     hl_hwe_normalized_pca pc_relate_kin).

Lemma notebook_run (mt : MatrixTable) (sa : table) (LCR_intervals : option val → option val) :
  read_matrix_table = Ok mt → import_table = Ok sa →
  import_locus_intervals = Ok LCR_intervals →
  nb = run (steps sa LCR_intervals) mt.
Proof.
  intros Hmt Hsa Hlcr. unfold notebook. rewrite Hmt, Hsa, Hlcr. simpl.
  unfold notebook_steps. rewrite run_cons.
  destruct (cell28 min_rep downcode mt) as [mt1|e]; [|done]. simpl.
  change (qc_steps is_snp sa sample_qc_of variant_qc_of hl_impute_sex
            hl_hwe_normalized_pca pc_relate_kin LCR_intervals vep_of cadd_of)
    with (before_LCR sa ++ cells_105_to_124 LCR_intervals vep_of cadd_of).
  by rewrite run_app.
Qed.

(** What the library routines of the cells raise, cell by cell. *)
Lemma library_call_Raise (mt : MatrixTable) (e : exn) :
  (cell41 sample_qc_of mt = Raise e ↔ first_raise (sample_qc_of mt) (cols mt) e) ∧
  (cell99 variant_qc_of mt = Raise e ↔ first_raise (variant_qc_of mt) (rows mt) e) ∧
  (cell122 vep_of mt = Raise e ↔ first_raise (vep_of mt) (rows mt) e) ∧
  (cell124 cadd_of mt = Raise e ↔ first_raise (cadd_of mt) (rows mt) e) ∧
  (hl_impute_sex mt (FNum (5 # 100)) (FNum (5 # 10)) (FNum (75 # 100)) = Raise e →
   sex_imputation hl_impute_sex mt = Raise e) ∧
  (hl_hwe_normalized_pca mt 10 false = Raise e →
   relatedness_filter hl_hwe_normalized_pca pc_relate_kin mt = Raise e) ∧
  (∀ scores, hl_hwe_normalized_pca mt 10 false = Ok scores →
             pc_relate_kin mt scores = Raise e →
             relatedness_filter hl_hwe_normalized_pca pc_relate_kin mt = Raise e) ∧
  (hl_hwe_normalized_pca mt 10 true = Raise e →
   ancestry hl_hwe_normalized_pca mt = Raise e).
Proof.
  split_and!.
  - apply annotate_cols_one_Raise.
  - apply annotate_rows_one_Raise.
  - apply annotate_rows_one_Raise.
  - apply annotate_rows_one_Raise.
  - intros H. unfold sex_imputation, cell56. by rewrite H.
  - intros H. unfold relatedness_filter, cell71. by rewrite H.
  - intros scores Hs H. unfold relatedness_filter, cell71, cell72. rewrite Hs. simpl.
    by rewrite H.
  - intros H. unfold ancestry, cell80. by rewrite H.
Qed.

End Exceptions.

(** ** Variant QC: the second flag and the removal (cells 110 and 113) *)

Lemma annotate_rows_elem kw mt mt' r' :
  annotate_rows kw mt = Ok mt' → r' ∈ rows mt' →
  ∃ r, r ∈ rows mt ∧ row_entries r' = row_entries r ∧
       annotate_struct kw (globals mt, r) (row_fields r) = Ok (row_fields r').
Proof.
  unfold annotate_rows. intros H Hr'. apply bind_Ok in H as (rs & Hrs & [= <-]).
  simpl in Hr'. apply mapM_Ok in Hrs.
  apply list_elem_of_lookup in Hr' as [i Hi].
  destruct (Forall2_lookup_r _ _ _ _ _ Hrs Hi) as (r & Hr & Hf).
  apply res_map_Ok in Hf as (fs & Hfs & ->).
  exists r. split_and!; [apply list_elem_of_lookup; eauto | done | done].
Qed.

(** X17: after cell 110 the flag is true exactly on the variants whose set of
    filters is there and non-empty; cell 113 removes these and the
    variants whose flag is missing, so a retained variant has an empty set
    of filters. *)
Lemma second_fail_VQSR_removal (mt0 mt1 mt2 : MatrixTable) :
  cell110 mt0 = Ok mt1 →
  cell113 mt1 = Ok mt2 →
  (∀ r, r ∈ rows mt1 →
     (fail_VQSR (globals mt1) r = Ok (Some true) ↔
      ∃ n, n_filters r = Ok (Some n) ∧ n ≠ 0)) ∧
  (∀ r, r ∈ rows mt2 ↔ r ∈ rows mt1 ∧ n_filters r = Ok (Some 0)).
Proof.
  intros H1 H2.
  assert (∀ r, r ∈ rows mt1 →
            ∃ n, n_filters r = Ok n ∧
                 fail_VQSR (globals mt1) r =
                   Ok (lift2 (λ a b, negb (a =? b)) n (Some 0))) as Hflag.
  { intros r Hr.
    destruct (annotate_rows_elem _ _ _ _ H1 Hr) as (r0 & _ & _ & Hf).
    apply annotate_struct_one in Hf as (v & Hv & Hfs). simpl in Hv.
    apply bind_Ok in Hv as (n & Hn & [= <-]). exists n.
    unfold n_filters, fail_VQSR, getattr in *. rewrite Hfs.
    rewrite lookup_insert_ne by done. rewrite lookup_insert_eq. split; [done|].
    simpl. by destruct n. }
  split.
  - intros r Hr. destruct (Hflag r Hr) as (n & Hn & ->). rewrite Hn. split.
    + intros [= Hb]. apply lift2_Some in Hb as (a & b & -> & [= <-] & Hb).
      exists a. split; [done|]. intros ->. done.
    + intros (a & [= ->] & Ha). simpl. do 2 f_equal.
      apply negb_true_iff, Z.eqb_neq. done.
  - intros r. apply filter_rows_Ok in H2 as (_ & _ & ->).
    rewrite list_elem_of_filter, kept_true. split.
    + intros [Hb Hr]. split; [done|].
      destruct (Hflag r Hr) as (n & Hn & Hf). rewrite Hf in Hb. rewrite Hn.
      injection Hb as Hb. apply lift2_Some in Hb as (a & b & -> & [= <-] & Hb).
      symmetry in Hb. apply negb_false_iff, Z.eqb_eq in Hb. by subst.
    + intros [Hr Hn]. split; [|done].
      destruct (Hflag r Hr) as (n & Hn' & ->). rewrite Hn in Hn'.
      by injection Hn' as <-.
Qed.

(** ** Outlier detection: the filter of cell 96 *)

Lemma fle_dichotomy (x : Q) (l u : float64) :
  fle l u = true → fle (FNum x) u = true ∨ fle l (FNum x) = true.
Proof.
  unfold fle. destruct l as [a| | |], u as [b| | |]; simpl; try done; auto.
  destruct (a ?= b)%Q eqn:Hab; try done; intros _.
  - apply Qeq_alt in Hab. destruct (x ?= b)%Q eqn:Hxb; auto. right.
    apply Qgt_alt in Hxb. destruct (a ?= x)%Q eqn:Hax; auto.
    apply Qgt_alt in Hax. rewrite Hab in Hax.
    exfalso. eapply Qlt_irrefl, Qlt_trans; eauto.
  - apply Qlt_alt in Hab. destruct (x ?= b)%Q eqn:Hxb; auto. right.
    apply Qgt_alt in Hxb. destruct (a ?= x)%Q eqn:Hax; auto.
    apply Qgt_alt in Hax.
    exfalso. eapply Qlt_irrefl, Qlt_trans; [exact Hab|]. eapply Qlt_trans; eauto.
Qed.

(** Whenever the lower bound is at most the upper bound, the filter of
    cell 96 keeps every sample whose SNP count is defined. *)
Lemma cell96_keeps_every_sample (mt mt' : MatrixTable) (lower upper : float64) :
  cell96 mt = Ok mt' →
  metrics_stats (globals mt) "upper" = Ok (Some upper) →
  metrics_stats (globals mt) "lower" = Ok (Some lower) →
  fle lower upper = true →
  ∀ c x, c ∈ cols mt → n_snp c = Ok (Some x) → c ∈ cols mt'.
Proof.
  intros H Hu Hl Hlu c x Hc Hx. apply filter_cols_Ok in H as (_ & -> & _).
  apply list_elem_of_filter. split; [|done]. apply kept_true.
  unfold hl_or. rewrite Hx, Hu, Hl. simpl.
  destruct (fle_dichotomy (inject_Z x) lower upper Hlu) as [H|H].
  - unfold float_of_Z. by rewrite H.
  - unfold fge, float_of_Z. rewrite H. by destruct (fle (FNum (inject_Z x)) upper).
Qed.

(** ** Relatedness: what the filter does prune (cells 71 to 77) *)

Lemma nodes_incident (es : list edge) (v : option string) :
  v ∈ nodes es ↔ ∃ e, e ∈ es ∧ incident v e = true.
Proof.
  unfold nodes, incident. rewrite elem_of_remove_dups, list_elem_of_bind. split.
  - intros (e & Hv & He). exists e. split; [done|].
    apply elem_of_cons in Hv as [->|Hv].
    + by rewrite bool_decide_eq_true_2.
    + apply list_elem_of_singleton in Hv as ->.
      rewrite (bool_decide_eq_true_2 (e.2 = e.2)) by done. apply orb_true_r.
  - intros (e & He & Hv). exists e. split; [|done].
    apply orb_true_iff in Hv as [Hv|Hv]; apply bool_decide_eq_true in Hv as <-.
    + apply list_elem_of_here.
    + apply list_elem_of_further, list_elem_of_here.
Qed.

Lemma max_degree_node_elem (es : list edge) (v : option string) :
  max_degree_node es = Some v → v ∈ nodes es.
Proof.
  unfold max_degree_node. generalize (degree es). intros d.
  induction (nodes es) as [|w ws IH]; simpl; [done|].
  destruct (foldr _ None ws) as [b|] eqn:Hb.
  - case_decide; intros [= <-].
    + apply list_elem_of_here.
    + apply list_elem_of_further. by apply IH.
  - intros [= <-]. apply list_elem_of_here.
Qed.

Lemma max_degree_node_None (es : list edge) :
  max_degree_node es = None → nodes es = [].
Proof.
  unfold max_degree_node. destruct (nodes es) as [|w ws]; simpl; [done|].
  destruct (foldr _ None ws); [case_decide|]; done.
Qed.

(** Every edge has an end among the removed nodes. *)
Lemma mis_removed_covers (fuel : nat) (es : list edge) (e : edge) :
  (length es ≤ fuel)%nat → e ∈ es →
  e.1 ∈ mis_removed fuel es ∨ e.2 ∈ mis_removed fuel es.
Proof.
  revert es. induction fuel as [|fuel IH]; intros es Hlen He.
  - destruct es; [by apply elem_of_nil in He | simpl in Hlen; lia].
  - simpl. destruct (max_degree_node es) as [v|] eqn:Hv.
    + destruct (incident v e) eqn:Hinc.
      * unfold incident in Hinc.
        apply orb_true_iff in Hinc as [H|H]; apply bool_decide_eq_true in H as <-.
        -- left. apply list_elem_of_here.
        -- right. apply list_elem_of_here.
      * destruct (IH (filter (λ e, incident v e = false) es)) as [H|H].
        -- apply max_degree_node_elem, nodes_incident in Hv as (e' & He' & Hinc').
           assert (length (filter (λ e, incident v e = false) es) < length es)%nat;
             [|lia].
           apply (length_filter_lt _ _ e'); [done|]. by rewrite Hinc'.
        -- by apply list_elem_of_filter.
        -- left. by apply list_elem_of_further.
        -- right. by apply list_elem_of_further.
    + apply max_degree_node_None in Hv.
      assert (e.1 ∈ nodes es) as H; [|rewrite Hv in H; by apply elem_of_nil in H].
      apply nodes_incident. exists e. split; [done|].
      unfold incident. by rewrite bool_decide_eq_true_2.
Qed.

Lemma ordered_pairs_lookup {A} (l : list A) (i j : nat) (x y : A) :
  l !! i = Some x → l !! j = Some y → (i < j)%nat → (x, y) ∈ ordered_pairs l.
Proof.
  revert i j. induction l as [|z l IH]; intros i j Hi Hj Hij; [done|].
  simpl. apply elem_of_app. destruct i as [|i].
  - left. injection Hi as ->. destruct j as [|j]; [lia|]. simpl in Hj.
    apply list_elem_of_fmap. exists y. split; [done|].
    apply list_elem_of_lookup. eauto.
  - right. destruct j as [|j]; [lia|]. simpl in Hi, Hj.
    apply (IH i j); [done..|lia].
Qed.

Lemma fge_tenth_fgt_088 (k : float64) :
  fge k (FNum (1 # 10)) = true → fgt k (FNum (88 # 1000)) = true.
Proof.
  destruct k as [q| | |]; try done.
  unfold fge, fgt, fle, flt, fcmp. intros H.
  assert (88 # 1000 < q)%Q as Hlt.
  { apply Qlt_le_trans with (1 # 10); [done|].
    destruct (1 # 10 ?= q)%Q eqn:Hc; try done.
    - apply Qeq_alt in Hc. rewrite Hc. apply Qle_refl.
    - apply Qlt_alt in Hc. by apply Qlt_le_weak. }
  destruct (88 # 1000 ?= q)%Q eqn:Hc; [|done|].
  - apply Qeq_alt in Hc. rewrite Hc in Hlt. by apply Qlt_irrefl in Hlt.
  - apply Qgt_alt in Hc. exfalso. eapply Qlt_irrefl, Qlt_trans; eauto.
Qed.

Section Relatedness.
Variable hl_hwe_normalized_pca : MatrixTable → nat → bool → res table.
Variable pc_relate_kin :
  MatrixTable → table → res (option string → option string → float64).

(** X16: of two samples whose kinship estimate is at least 0.1, the
    relatedness filter removes at least one. *)
Lemma relatedness_filter_prunes (mt mt' : MatrixTable) (scores : table)
    (kin : option string → option string → float64)
    (i j : nat) (ci cj : struct) (ki kj : string) :
  relatedness_filter hl_hwe_normalized_pca pc_relate_kin mt = Ok mt' →
  hl_hwe_normalized_pca mt 10 false = Ok scores →
  pc_relate_kin mt scores = Ok kin →
  cols mt !! i = Some ci → cols mt !! j = Some cj → (i < j)%nat →
  col_s ci = Ok (Some ki) → col_s cj = Ok (Some kj) →
  fge (kin (Some ki) (Some kj)) (FNum (1 # 10)) = true →
  ¬ (ci ∈ cols mt' ∧ cj ∈ cols mt').
Proof.
  intros H Hpca Hkin Hi Hj Hij Hki Hkj Hge [Hci Hcj].
  unfold relatedness_filter, cell71, cell72 in H. rewrite Hpca in H. simpl in H.
  rewrite Hkin in H. simpl in H.
  apply bind_Ok in H as (ht & Hht & H).
  apply bind_Ok in Hht as (keys & Hkeys & [= <-]).
  apply mapM_Ok in Hkeys.
  destruct (Forall2_lookup_l _ _ _ _ _ Hkeys Hi) as (ki' & Hki' & Hki'').
  destruct (Forall2_lookup_l _ _ _ _ _ Hkeys Hj) as (kj' & Hkj' & Hkj'').
  rewrite Hki in Hki''. rewrite Hkj in Hkj''.
  injection Hki'' as <-. injection Hkj'' as <-.
  pose proof (ordered_pairs_lookup _ _ _ _ _ Hki' Hkj' Hij) as Hpair.
  set (removed := cell74 _) in H.
  assert (Some ki ∈ removed ∨ Some kj ∈ removed) as Hrem.
  { apply (mis_removed_covers _ _ (Some ki, Some kj)); [done|].
    apply list_elem_of_fmap.
    exists {| rel_i := Some ki; rel_j := Some kj; rel_kin := kin (Some ki) (Some kj) |}.
    split; [done|]. unfold cell73. apply list_elem_of_filter.
    split; [by apply fge_tenth_fgt_088|]. unfold pc_relate.
    apply list_elem_of_filter. split; [done|].
    apply list_elem_of_fmap. exists (Some ki, Some kj). done. }
  apply filter_cols_Ok in H as (_ & H & _). rewrite H in Hci, Hcj.
  apply list_elem_of_filter in Hci as [Hci _], Hcj as [Hcj _].
  apply kept_true in Hci, Hcj. rewrite Hki in Hci. rewrite Hkj in Hcj.
  simpl in Hci, Hcj. injection Hci as Hci. injection Hcj as Hcj.
  apply bool_decide_eq_false in Hci, Hcj.
  destruct Hrem as [Hr|Hr]; [apply Hci | apply Hcj]; split; eauto.
Qed.
End Relatedness.

(** ** Matrix tables stay rectangular *)

Lemma select_length {A B} (mask : list bool) (l : list A) (k : list B) :
  length l = length k → length (select mask l) = length (select mask k).
Proof.
  revert l k. induction mask as [|b mask IH]; intros [|x l] [|y k] Hlen;
    simpl in *; try done.
  destruct b; simpl; auto.
Qed.

Lemma filter_cols_rectangular p keep mt mt' :
  filter_cols p keep mt = Ok mt' → rectangular mt → rectangular mt'.
Proof.
  unfold filter_cols, rectangular. intros H Hwf.
  apply bind_Ok in H as (mask & _ & [= <-]). simpl.
  apply Forall_fmap. eapply Forall_impl; [exact Hwf|].
  intros r Hr. simpl. by apply select_length.
Qed.

Lemma filter_rows_rectangular p keep mt mt' :
  filter_rows p keep mt = Ok mt' → rectangular mt → rectangular mt'.
Proof.
  unfold rectangular. intros (_ & -> & ->)%filter_rows_Ok Hwf.
  apply Forall_forall. intros r [_ Hr]%list_elem_of_filter.
  by eapply Forall_forall in Hwf.
Qed.

Lemma map_entries_rectangular f mt mt' :
  map_entries f mt = Ok mt' → rectangular mt → rectangular mt'.
Proof.
  unfold rectangular. intros (_ & -> & H)%map_entries_Ok Hwf.
  apply Forall_forall. intros r' Hr'. apply list_elem_of_lookup in Hr' as [i Hi].
  destruct (Forall2_lookup_r _ _ _ _ _ H Hi) as (r & Hr & _ & Hes).
  apply Forall2_length in Hes. rewrite length_zip_with in Hes.
  eapply Forall_lookup_1 in Hwf; [|exact Hr]. simpl in Hwf. lia.
Qed.

Lemma annotate_globals_rectangular kw mt mt' :
  annotate_globals kw mt = Ok mt' → rectangular mt → rectangular mt'.
Proof.
  unfold annotate_globals. intros H Hwf. by apply bind_Ok in H as (g & _ & [= <-]).
Qed.

Lemma annotate_cols_rectangular kw mt mt' :
  annotate_cols kw mt = Ok mt' → rectangular mt → rectangular mt'.
Proof.
  unfold annotate_cols, rectangular. intros H Hwf.
  apply bind_Ok in H as (cs & Hcs & [= <-]). simpl.
  apply mapM_Ok, Forall2_length in Hcs. by rewrite <- Hcs.
Qed.

Lemma annotate_rows_rectangular kw mt mt' :
  annotate_rows kw mt = Ok mt' → rectangular mt → rectangular mt'.
Proof.
  unfold rectangular. intros H Hwf.
  apply Forall_forall. intros r' Hr'.
  destruct (annotate_rows_elem _ _ _ _ H Hr') as (r & Hr & -> & _).
  unfold annotate_rows in H. apply bind_Ok in H as (rs & _ & [= <-]). simpl.
  by eapply Forall_forall in Hwf.
Qed.

Section Rectangular.
Variable is_snp : string → string → bool.
Variable min_rep : option val → string → string → option val * list (option val).
Variable downcode : nat → struct → struct.
Variable sa : table.
Variable sample_qc_of : MatrixTable → struct → res (option val).
Variable variant_qc_of : MatrixTable → Row → res (option val).
Variable hl_impute_sex : MatrixTable → float64 → float64 → float64 → res table.
Variable hl_hwe_normalized_pca : MatrixTable → nat → bool → res table.
Variable pc_relate_kin :
  MatrixTable → table → res (option string → option string → float64).
Variable LCR_intervals : option val → option val.
Variables vep_of cadd_of : MatrixTable → Row → res (option val).

Local Abbreviation steps :=
  (notebook_steps is_snp min_rep downcode sa sample_qc_of variant_qc_of
     hl_impute_sex hl_hwe_normalized_pca pc_relate_kin LCR_intervals
     vep_of cadd_of).

Lemma split_row_entries (r r' : Row) (rs : list Row) :
  split_row min_rep downcode r = Ok rs → r' ∈ rs →
  length (row_entries r') = length (row_entries r).
Proof.
  unfold split_row. intros H Hr'.
  apply bind_Ok in H as (al & _ & H). apply bind_Ok in H as (loc & _ & H).
  destruct al as [[|ref alts]|]; try (injection H as <-; by apply elem_of_nil in Hr').
  apply bind_Ok in H as (ref' & _ & H). apply bind_Ok in H as (alts' & _ & [= <-]).
  apply list_elem_of_omap in Hr' as (o & Ho & Heq). unfold id in Heq. subst o.
  apply elem_of_lookup_imap in Ho as (i & alt & Ho & _). symmetry in Ho.
  unfold split_alt in Ho. destruct ref' as [ref'|], alt as [alt|]; try done.
  case_decide; [done|]. injection Ho as <-. simpl. by rewrite length_fmap.
Qed.

Lemma cell28_rectangular mt mt' :
  cell28 min_rep downcode mt = Ok mt' → rectangular mt → rectangular mt'.
Proof.
  unfold cell28, rectangular. intros H Hwf.
  apply bind_Ok in H as (rs & Hrs & [= <-]). simpl.
  apply mapM_Ok in Hrs. apply Forall_forall. intros r' Hr'.
  apply list_elem_of_join in Hr' as (l & Hr' & Hl).
  apply list_elem_of_lookup in Hl as [i Hi].
  destruct (Forall2_lookup_r _ _ _ _ _ Hrs Hi) as (r & Hr & Hsplit).
  rewrite (split_row_entries _ _ _ Hsplit Hr').
  by eapply Forall_lookup_1 in Hwf.
Qed.

Ltac rectangular_of H :=
  first
    [ by apply filter_cols_rectangular in H
    | by apply filter_rows_rectangular in H
    | by apply map_entries_rectangular in H
    | by apply annotate_cols_rectangular in H
    | by apply annotate_rows_rectangular in H
    | by apply annotate_globals_rectangular in H
    | by apply cell28_rectangular in H ].

Lemma notebook_step_rectangular step mt mt' :
  step ∈ steps → step mt = Ok mt' → rectangular mt → rectangular mt'.
Proof.
  unfold steps, notebook_steps, qc_steps. intros Hin H Hwf.
  repeat (apply elem_of_cons in Hin as [->|Hin]); try by apply elem_of_nil in Hin.
  all: try (rectangular_of H).
  - apply bind_Ok in H as (t & _ & H). rectangular_of H.
  - apply bind_Ok in H as (t & _ & H). apply bind_Ok in H as (ht & _ & H).
    rectangular_of H.
  - apply bind_Ok in H as (t & _ & H). rectangular_of H.
Qed.

(** X18: every state that a run of notebook cells reaches from a rectangular
    matrix table is rectangular. *)
Lemma notebook_rectangular (cells : list (MatrixTable → res MatrixTable))
    (mt mt' : MatrixTable) :
  Forall (λ cell, cell ∈ steps) cells →
  run cells mt = Ok mt' → rectangular mt → rectangular mt'.
Proof.
  intros Hcells. revert mt.
  induction Hcells as [|cell cells Hcell _ IH]; intros mt Hrun Hwf.
  - by injection Hrun as <-.
  - rewrite run_cons in Hrun. apply bind_Ok in Hrun as (mt1 & H1 & Hrun).
    eapply IH; [done|]. by eapply notebook_step_rectangular.
Qed.
End Rectangular.

(** ** The cells on the example tables *)

(** C1: on five samples with SNP counts 10, 10, 10, 10 and 1000 the
    bounds of cell 93 are both 10 (median 10, MAD 0), and the filter of
    cell 96 retains all five samples, also the one with 1000 SNPs, which
    lies above the upper bound: the filter joins its two comparisons with
    [|], so it asks for a count below the upper bound or above the lower
    one. *)
Theorem outlier_filter_keeps_outlier :
  let out := cell93 outlier_mt >>= cell96 in
  res_map samples out = Ok (samples outlier_mt) ∧
  out >>= col_values n_snp = Ok [Some 10; Some 10; Some 10; Some 10; Some 1000] ∧
  (out >>= λ mt, metrics_stats (globals mt) "upper") = Ok (Some (FNum (100000 # 10000))) ∧
  (out >>= λ mt, metrics_stats (globals mt) "lower") = Ok (Some (FNum (100000 # 10000))) ∧
  fle (float_of_Z 1000) (FNum (100000 # 10000)) = false.
Proof. split_and!; vm_compute; reflexivity. Qed.

(** C2: an entry with [GQ = 30] and [DP = 5] (homozygous reference,
    [AD = [5, 0]]) is retained by the genotype filter of cell 119, which
    tests [GQ >= 20] and [GQ >= 10] and never reads [DP]; the second
    entry of the row is removed for its allele balance. *)
Theorem genotype_filter_keeps_low_depth :
  let out := cell117 genotype_mt >>= cell119 in
  out >>= entry_values GQ = Ok [[Some (Some 30); None]] ∧
  out >>= entry_values DP = Ok [[Some (Some 5); None]] ∧
  (5 <? 10) = true.
Proof. split_and!; vm_compute; reflexivity. Qed.

(** C3: two samples with a kinship estimate of 0.09, which is above
    0.088, are both retained by the relatedness filter: [pc_relate] is
    called with [min_kinship=0.1] and leaves the pair out of its table.
    With an estimate of 0.11 the first of the two is removed. *)
Theorem relatedness_filter_keeps_related_pair :
  res_map samples (relatedness_filter ex_pca (ex_kin (9 # 100)) related_mt)
    = Ok (samples related_mt) ∧
  fgt (FNum (9 # 100)) (FNum (88 # 1000)) = true ∧
  res_map samples (relatedness_filter ex_pca (ex_kin (11 # 100)) related_mt)
    = Ok [Some (Some (VStr "b"))].
Proof. split_and!; vm_compute; reflexivity. Qed.

(** C5: after cell 102 the flag [fail_VQSR] is true on the variant whose
    set of filters is empty and false on the variant that has a filter,
    and the count of cell 103 is the number of variants that pass. *)
Theorem first_fail_VQSR_flags_passing_variant :
  let out := cell102 vqsr_mt in
  out >>= row_values n_filters = Ok [Some 0; Some 1] ∧
  out >>= row_values (fail_VQSR ∅) = Ok [Some true; Some false] ∧
  out >>= count_fail_VQSR = Ok 1%nat.
Proof. split_and!; vm_compute; reflexivity. Qed.

(** C8, as stated, fails at cell 28: the split turns one variant with two
    alternate alleles into two variants. *)
Lemma split_multi_adds_variants :
  let out := cell28 ex_min_rep ex_downcode multi_mt in
  n_rows multi_mt = 1%nat ∧
  res_map n_rows out = Ok 2%nat ∧
  res_map variants out =
    Ok [(Some (Some (VLocus "1" 100)), Some (Some (VArray [Some (VStr "A"); Some (VStr "C")])));
        (Some (Some (VLocus "1" 100)), Some (Some (VArray [Some (VStr "A"); Some (VStr "G")])))].
Proof. split_and!; vm_compute; reflexivity. Qed.

(** C9, as stated, fails at cell 110: the field [fail_VQSR] exists since
    cell 102, and the annotation replaces its value on every variant. *)
Lemma second_fail_VQSR_replaces_first :
  let before := cell102 vqsr_mt in
  let after := before >>= cell110 in
  before >>= row_values (λ r, Ok (row_fields r !! "fail_VQSR"))
    = Ok [Some (Some (VBool true)); Some (Some (VBool false))] ∧
  after >>= row_values (λ r, Ok (row_fields r !! "fail_VQSR"))
    = Ok [Some (Some (VBool false)); Some (Some (VBool true))].
Proof. split_and!; vm_compute; reflexivity. Qed.

(** ** The theorems at concrete tables *)

Lemma sample_qc_filters_retain_witness :
  (∀ c, c ∈ cols (result (cell46 sample_qc_mt)) ↔
        c ∈ cols sample_qc_mt ∧
        ∃ cr, call_rate c = Ok (Some cr) ∧ fge cr (FNum (97 # 100)) = true) ∧
  (∀ c, c ∈ cols (result (cell65 sample_qc_mt)) ↔
        c ∈ cols sample_qc_mt ∧
        ∃ cr dp sex,
          call_rate c = Ok (Some cr) ∧ fge cr (FNum (97 # 100)) = true ∧
          dp_stats_mean c = Ok (Some dp) ∧ fgt dp (FNum 20) = true ∧
          is_female c = Ok (Some sex)).
Proof.
  apply (sample_qc_filters_retain sample_qc_mt _ sample_qc_mt _);
    vm_compute; reflexivity.
Defined.

Lemma sex_imputation_input_witness :
  cell56 ex_impute_sex_fails (result (cell53 ex_is_snp vcf_mt)) =
    ex_impute_sex_fails (result (cell53 ex_is_snp vcf_mt))
      (FNum (5 # 100)) (FNum (5 # 10)) (FNum (75 # 100)) ∧
  ∀ r, r ∈ rows (result (cell53 ex_is_snp vcf_mt)) →
    n_alleles r = Ok (Some 2) ∧
    (∃ ref alt, allele 0 r = Ok (Some ref) ∧ allele 1 r = Ok (Some alt) ∧
                ex_is_snp ref alt = true) ∧
    (∃ f, mean_alt_freq r = Ok (Some f) ∧ fgt f (FNum (1 # 1000)) = true) ∧
    (∃ f, GT_call_rate r = Ok (Some f) ∧ fgt f (FNum (97 # 100)) = true).
Proof.
  apply (sex_imputation_input ex_is_snp ex_impute_sex_fails vcf_mt).
  vm_compute; reflexivity.
Defined.

Lemma genotype_filter_allele_balance_witness :
  let mt1 := result (cell117 genotype_mt) in
  let mt2 := result (cell119 mt1) in
  (∀ r e, r ∈ rows mt1 → Some e ∈ row_entries r →
     (∃ ab, allele_balance e = Ok ab ∧ e !! "AB" = Some (vfloat ab)) ∧
     (e !! "AD" = Some None → e !! "AB" = Some None) ∧
     (∀ ds, e !! "AD" = Some (Some (VArray ((λ d : option Z, VInt <$> d) <$> ds))) →
        let total := foldr Z.add 0 (omap id ds) in
        ∃ alt, ds !! 1%nat = Some alt ∧
          e !! "AB" = Some (vfloat (lift2 fdiv (float_of_Z <$> alt)
                                               (Some (float_of_Z (wrap32 total))))) ∧
          (alt = None → e !! "AB" = Some None) ∧
          (∀ a, alt = Some a → - 2 ^ 31 ≤ total < 2 ^ 31 → total ≠ 0 →
                e !! "AB" = Some (Some (VFloat (FNum (inject_Z a / inject_Z total))))) ∧
          (alt = Some 0 → total = 0 → e !! "AB" = Some (Some (VFloat FNaN))))) ∧
  (∀ r e, r ∈ rows mt2 → Some e ∈ row_entries r →
     (∃ r1, r1 ∈ rows mt1 ∧ Some e ∈ row_entries r1) ∧
     ∃ gt ab,
       GT e = Ok (Some gt) ∧ e !! "AB" = Some (Some (VFloat ab)) ∧
       AB e = Ok (Some ab) ∧ allele_balance e = Ok (Some ab) ∧
       (is_hom_ref gt = true ∨ is_het gt = true ∨ is_hom_var gt = true) ∧
       (is_hom_ref gt = true → fle ab (FNum (1 # 10)) = true) ∧
       (is_het gt = true →
          fge ab (FNum (25 # 100)) = true ∧ fle ab (FNum (75 # 100)) = true) ∧
       (is_hom_var gt = true → fge ab (FNum (9 # 10)) = true)).
Proof.
  apply (genotype_filter_allele_balance genotype_mt); vm_compute; reflexivity.
Defined.

Lemma annotation_cells_frame_witness :
  let mt' := result (cell117 genotype_mt) in
  has_fields Entries ["AB"] mt' ∧ frame ["AB"] genotype_mt mt' ∧
  n_rows mt' = n_rows genotype_mt ∧ n_cols mt' = n_cols genotype_mt.
Proof.
  apply (annotation_cells_frame ex_sa ex_LCR_intervals ex_sa ex_sa Entries ["AB"] cell117).
  - unfold annotation_cells. do 8 apply list_elem_of_further. apply list_elem_of_here.
  - repeat constructor.
  - vm_compute; reflexivity.
Defined.

Lemma qc_steps_only_remove_witness :
  let mt' := result (run [cell46; cell65] sample_qc_mt) in
  shrinks sample_qc_mt mt' ∧
  (n_cols mt' ≤ n_cols sample_qc_mt)%nat ∧ (n_rows mt' ≤ n_rows sample_qc_mt)%nat.
Proof.
  apply (qc_steps_only_remove ex_is_snp ex_sa ex_sample_qc_of ex_variant_qc_of
           ex_impute_sex_fails ex_pca (ex_kin 0) ex_LCR_intervals
           ex_variant_qc_of ex_variant_qc_of [cell46; cell65]).
  - unfold qc_steps. repeat constructor.
  - vm_compute; reflexivity.
Defined.


(** * Further properties of the cells *)

(** ** The median *)

Lemma wrap64_small (z : Z) : - 2 ^ 63 ≤ z < 2 ^ 63 → wrap64 z = z.
Proof.
  intros Hz. unfold wrap64, wrap.
  change (2 ^ (64 - 1)) with (2 ^ 63). change (2 ^ 64) with (2 * 2 ^ 63).
  rewrite Z.mod_small; lia.
Qed.

Lemma hl_median_Permutation (xs ys : list (option Z)) :
  xs ≡ₚ ys → hl_median xs = hl_median ys.
Proof.
  intros Hp. unfold hl_median.
  assert (merge_sort Z.le (omap id xs) = merge_sort Z.le (omap id ys)) as ->; [|done].
  apply (Sorted_unique Z.le).
  - apply (Sorted_merge_sort Z.le).
  - apply (Sorted_merge_sort Z.le).
  - rewrite !merge_sort_Permutation. by apply omap_Permutation.
Qed.

Lemma median_index (n : nat) :
  n ≠ 0%nat →
  ((n - 1) / 2 < n)%nat ∧ (Nat.odd n = false → S ((n - 1) / 2) < n)%nat.
Proof.
  intros Hn.
  assert ((n - 1) / 2 ≤ n - 1)%nat as Hle by (apply Nat.Div0.div_le_upper_bound; lia).
  split; [lia|]. intros Hodd.
  destruct n as [|[|n]]; [done|discriminate|].
  pose proof (Nat.div_lt (S (S n) - 1) 2). lia.
Qed.

Lemma hl_median_None (xs : list (option Z)) :
  hl_median xs = None ↔ omap id xs = [].
Proof.
  unfold hl_median.
  pose proof (Permutation_length (merge_sort_Permutation Z.le (omap id xs))) as Hlen.
  generalize dependent (merge_sort Z.le (omap id xs)). intros s Hlen.
  case_decide as Hn.
  - split; [|done]. intros _. rewrite Hn in Hlen. by destruct (omap id xs).
  - split; [|intros Hnil; rewrite Hnil in Hlen; done].
    intros Hnone. exfalso. destruct (median_index _ Hn) as [Hmid Hmid'].
    destruct (lookup_lt_is_Some_2 s _ Hmid) as [x Hx].
    destruct (Nat.odd (length s)); [congruence|].
    destruct (lookup_lt_is_Some_2 s _ (Hmid' eq_refl)) as [y Hy].
    rewrite Hx, Hy in Hnone. done.
Qed.

(** The median of values between two bounds lies between the bounds, as
    long as the sum of two values fits in 64 bits. *)
Lemma hl_median_bounds (xs : list (option Z)) (lo hi m : Z) :
  - 2 ^ 62 ≤ lo → hi < 2 ^ 62 →
  Forall (λ x, lo ≤ x ≤ hi) (omap id xs) →
  hl_median xs = Some m → lo ≤ m ≤ hi.
Proof.
  intros Hlo Hhi Hall. unfold hl_median.
  assert (Forall (λ x, lo ≤ x ≤ hi) (merge_sort Z.le (omap id xs))) as Hs.
  { by rewrite merge_sort_Permutation. }
  destruct (decide _); [done|]. destruct (Nat.odd _).
  - intros Hm. by eapply Forall_lookup_1 in Hs.
  - intros Hm. apply lift2_Some in Hm as (a & b & Ha & Hb & ->).
    eapply Forall_lookup_1 in Ha; [|exact Hs]. eapply Forall_lookup_1 in Hb; [|exact Hs].
    simpl in Ha, Hb. rewrite wrap64_small by lia.
    split.
    + apply Z.div_le_lower_bound; lia.
    + apply Z.div_le_upper_bound; lia.
Qed.

(** ** Outlier detection: what cells 93 and 96 do together *)

Lemma omap_id_deviations (vs : list (option Z)) (m : Z) :
  omap id ((λ v, hl_abs64 <$> lift2 hl_sub64 v (Some m)) <$> vs)
  = (λ x, hl_abs64 (hl_sub64 x m)) <$> omap id vs.
Proof.
  induction vs as [|[x|] vs IH]; [done| |]; simpl; [f_equal|]; exact IH.
Qed.

(** For SNP counts that are counts (not negative, below [2 ^ 62]) and
    not all missing, the median and the MAD are there and not negative. *)
Lemma metric_stats_defined (vs : list (option Z)) :
  Forall (λ x, 0 ≤ x < 2 ^ 62) (omap id vs) → omap id vs ≠ [] →
  ∃ m d, metric_median vs = Some m ∧ 0 ≤ m < 2 ^ 62 ∧ 0 ≤ d ∧
         metric_mad vs = Some (FNum ((14826 # 10000) * inject_Z d)).
Proof.
  intros Hall Hne. unfold metric_mad, metric_median.
  destruct (hl_median vs) as [m|] eqn:Hm; [|by apply hl_median_None in Hm].
  assert (0 ≤ m ≤ 2 ^ 62 - 1) as Hmr.
  { apply (hl_median_bounds vs); [lia..| |done].
    eapply Forall_impl; [exact Hall|]. simpl. lia. }
  set (devs := (λ v, hl_abs64 <$> lift2 hl_sub64 v (Some m)) <$> vs).
  assert (Forall (λ x, 0 ≤ x ≤ 2 ^ 62 - 1) (omap id devs)) as Hdevs.
  { unfold devs. rewrite omap_id_deviations. apply Forall_fmap.
    eapply Forall_impl; [exact Hall|]. simpl. intros x Hx.
    unfold hl_abs64, hl_sub64. rewrite (wrap64_small (x - m)) by lia.
    rewrite wrap64_small by lia. lia. }
  destruct (hl_median devs) as [d|] eqn:Hd.
  - exists m, d. split_and!; [done|lia..| |done].
    by apply (hl_median_bounds devs 0 (2 ^ 62 - 1)).
  - apply hl_median_None in Hd. unfold devs in Hd. rewrite omap_id_deviations in Hd.
    apply fmap_nil_inv in Hd. done.
Qed.

Lemma fle_lower_upper (m mad : Q) :
  (0 <= mad)%Q →
  fle (fsub (FNum m) (fmul (FNum 4) (FNum mad))) (fadd (FNum m) (fmul (FNum 4) (FNum mad)))
  = true.
Proof.
  intros Hmad. unfold fle, fsub, fadd, fmul, fneg, fcmp.
  destruct (m + - (4 * mad) ?= m + 4 * mad)%Q eqn:Hc; [done..|].
  apply Qgt_alt in Hc. exfalso. lra.
Qed.

Lemma to_expr_Ok (v w : option val) :
  to_expr v = Ok w → w = v ∧ ∃ x, v = Some x ∧ complete x = true.
Proof.
  unfold to_expr. destruct v as [x|]; [|done].
  destruct (complete x) eqn:Hx; [|done]. intros [= <-]. eauto.
Qed.

Lemma cell93_Ok (mt mt1 : MatrixTable) :
  cell93 mt = Ok mt1 →
  ∃ v, outlier_metric mt = Ok v ∧ cols mt1 = cols mt ∧ rows mt1 = rows mt ∧
       globals mt1 = <["metrics_stats" := v]> (globals mt).
Proof.
  unfold cell93, annotate_globals. intros H. apply bind_Ok in H as (g & Hg & [= <-]).
  apply annotate_struct_one in Hg as (v & Hv & ->).
  apply bind_Ok in Hv as (v0 & Hv0 & [-> _]%to_expr_Ok). eauto.
Qed.

Lemma cell93_bounds (mt mt1 : MatrixTable) (vs : list (option Z)) :
  metric_values mt = Ok vs →
  Forall (λ x, 0 ≤ x < 2 ^ 62) (omap id vs) → omap id vs ≠ [] →
  cell93 mt = Ok mt1 →
  ∃ lower upper,
    metrics_stats (globals mt1) "upper" = Ok (Some upper) ∧
    metrics_stats (globals mt1) "lower" = Ok (Some lower) ∧
    fle lower upper = true.
Proof.
  intros Hvs Hall Hne H. apply cell93_Ok in H as (v & Hv & _ & _ & Hg).
  unfold outlier_metric in Hv. rewrite Hvs in Hv. simpl in Hv. injection Hv as <-.
  destruct (metric_stats_defined vs Hall Hne) as (m & d & Hm & _ & Hd & Hmad).
  rewrite Hm, Hmad in Hg. simpl in Hg.
  eexists _, _. unfold metrics_stats, getattr. rewrite Hg, lookup_insert_eq.
  split_and!; [reflexivity..|].
  apply fle_lower_upper.
  apply Qmult_le_0_compat; [done|].
  change 0%Q with (inject_Z 0). by rewrite <- Zle_Qle.
Qed.

(** X1: for SNP counts that are counts, cells 93 and 96 together keep
    exactly the samples whose SNP count is defined: no sample is removed
    for being an outlier. *)
Theorem outlier_step_keeps_defined (mt mt1 mt2 : MatrixTable) (vs : list (option Z)) :
  metric_values mt = Ok vs →
  Forall (λ x, 0 ≤ x < 2 ^ 62) (omap id vs) →
  cell93 mt = Ok mt1 →
  cell96 mt1 = Ok mt2 →
  ∀ c, c ∈ cols mt2 ↔ c ∈ cols mt ∧ ∃ x, n_snp c = Ok (Some x).
Proof.
  intros Hvs Hall H1 H2 c.
  destruct (cell93_Ok _ _ H1) as (_ & _ & Hcols & _ & _). split.
  - intros Hc. pose proof H2 as H2'.
    apply filter_cols_Ok in H2' as (_ & H2' & _). rewrite H2' in Hc.
    apply list_elem_of_filter in Hc as [Hk Hc]. rewrite Hcols in Hc. split; [done|].
    apply kept_true, hl_or_true in Hk as [Hk|Hk];
      apply bind_Ok in Hk as ([x|] & Hx & Hk); eauto;
      apply bind_Ok in Hk as (b & _ & Hk); done.
  - intros [Hc [x Hx]].
    assert (omap id vs ≠ []) as Hne.
    { apply mapM_Ok in Hvs. apply list_elem_of_lookup in Hc as [i Hi].
      destruct (Forall2_lookup_l _ _ _ _ _ Hvs Hi) as (v & Hv & Hcv).
      rewrite Hx in Hcv. injection Hcv as <-.
      intros Hnil. assert (x ∈ omap id vs) as Hin; [|rewrite Hnil in Hin; by apply elem_of_nil in Hin].
      apply list_elem_of_omap. exists (Some x). split; [|done].
      apply list_elem_of_lookup. eauto. }
    destruct (cell93_bounds _ _ _ Hvs Hall Hne H1) as (lower & upper & Hu & Hl & Hlu).
    apply (cell96_keeps_every_sample mt1 mt2 lower upper H2 Hu Hl Hlu c x); [|done].
    by rewrite Hcols.
Qed.

Lemma outlier_step_keeps_defined_witness :
  metric_values outlier_mt = Ok [Some 10; Some 10; Some 10; Some 10; Some 1000] ∧
  ∀ c, c ∈ cols (result (cell96 (result (cell93 outlier_mt)))) ↔
       c ∈ cols outlier_mt ∧ ∃ x, n_snp c = Ok (Some x).
Proof.
  split; [vm_compute; reflexivity|].
  apply (outlier_step_keeps_defined outlier_mt (result (cell93 outlier_mt)) _
           [Some 10; Some 10; Some 10; Some 10; Some 1000]).
  - vm_compute; reflexivity.
  - repeat constructor; vm_compute; discriminate.
  - vm_compute; reflexivity.
  - vm_compute; reflexivity.
Defined.

Lemma mapM_Permutation {A B} (f : A → res B) (l l' : list A) (k : list B) :
  l ≡ₚ l' → mapM f l = Ok k → ∃ k', mapM f l' = Ok k' ∧ k ≡ₚ k'.
Proof.
  intros Hp. revert k. induction Hp as [|x l l' _ IH|x y l|l l' l'' _ IH1 _ IH2]; intros k H.
  - exists k. done.
  - simpl in H. apply bind_Ok in H as (z & Hz & H).
    apply bind_Ok in H as (k0 & Hk0 & [= <-]).
    destruct (IH _ Hk0) as (k' & Hk' & Hp'). exists (z :: k'). simpl.
    rewrite Hz, Hk'. split; [done|]. by constructor.
  - simpl in H. apply bind_Ok in H as (z1 & Hz1 & H).
    apply bind_Ok in H as (k0 & H & [= <-]).
    apply bind_Ok in H as (z2 & Hz2 & H). apply bind_Ok in H as (k1 & Hk1 & [= <-]).
    exists (z2 :: z1 :: k1). simpl. rewrite Hz2, Hz1, Hk1. split; [done|]. constructor.
  - destruct (IH1 _ H) as (k' & Hk' & Hp'). destruct (IH2 _ Hk') as (k'' & Hk'' & Hp'').
    exists k''. split; [done|]. by etrans.
Qed.

Lemma metric_mad_Permutation (vs vs' : list (option Z)) :
  vs ≡ₚ vs' → metric_median vs = metric_median vs' ∧ metric_mad vs = metric_mad vs'.
Proof.
  intros Hp. unfold metric_mad, metric_median.
  rewrite <- (hl_median_Permutation vs vs' Hp). split; [done|]. do 2 f_equal.
  apply hl_median_Permutation. by apply fmap_Permutation.
Qed.

(** X2: the outlier statistics of cell 93 do not depend on the order of
    the samples. *)
Theorem outlier_metric_sample_order (mt mt' : MatrixTable) (v : option val) :
  cols mt ≡ₚ cols mt' →
  outlier_metric mt = Ok v →
  outlier_metric mt' = Ok v.
Proof.
  unfold outlier_metric, metric_values. intros Hp H.
  apply bind_Ok in H as (vs & Hvs & [= <-]).
  destruct (mapM_Permutation _ _ _ _ Hp Hvs) as (vs' & -> & Hp'). simpl.
  destruct (metric_mad_Permutation vs vs' Hp') as [-> ->]. done.
Qed.

Lemma outlier_metric_sample_order_witness :
  outlier_metric
    {| globals := ∅; cols := reverse (cols outlier_mt); rows := [] |}
  = Ok (Some (VStruct
      [("median", Some (VInt 10));
       ("mad", Some (VFloat (FNum (0 # 10000))));
       ("upper", Some (VFloat (FNum (100000 # 10000))));
       ("lower", Some (VFloat (FNum (100000 # 10000))))])).
Proof.
  apply (outlier_metric_sample_order outlier_mt).
  - simpl. by rewrite reverse_Permutation.
  - vm_compute; reflexivity.
Defined.

Lemma outlier_metric_missing (mt : MatrixTable) (vs : list (option Z)) :
  metric_values mt = Ok vs →
  omap id vs = [] →
  outlier_metric mt =
    Ok (Some (VStruct [("median", None); ("mad", None); ("upper", None); ("lower", None)])).
Proof.
  intros Hvs Hnil. unfold outlier_metric. rewrite Hvs. simpl.
  assert (metric_median vs = None) as Hm by by apply hl_median_None.
  assert (metric_mad vs = None) as Hmad.
  { unfold metric_mad. rewrite Hm.
    assert (hl_median ((λ v, hl_abs64 <$> lift2 hl_sub64 v None) <$> vs) = None) as ->; [|done].
    apply hl_median_None. clear Hvs Hm.
    induction vs as [|[x|] vs IH]; [done|done|]. simpl in *. auto. }
  by rewrite Hm, Hmad.
Qed.

Lemma outlier_metric_complete (mt : MatrixTable) (vs : list (option Z)) :
  metric_values mt = Ok vs →
  omap id vs ≠ [] →
  ∃ x, outlier_metric mt = Ok (Some x) ∧ complete x = true.
Proof.
  intros Hvs Hne. unfold outlier_metric. rewrite Hvs. simpl.
  unfold metric_mad, metric_median.
  destruct (hl_median vs) as [m|] eqn:Hm; [|by apply hl_median_None in Hm].
  destruct (hl_median ((λ v, hl_abs64 <$> lift2 hl_sub64 v (Some m)) <$> vs)) as [d|] eqn:Hd.
  - eexists. split; [reflexivity|]. done.
  - apply hl_median_None in Hd. rewrite omap_id_deviations in Hd.
    by apply fmap_nil_inv in Hd.
Qed.

(** X3: cell 93 returns exactly when some sample has a SNP count.  When
    no sample has one, in particular when there is no sample, the
    aggregate gives a struct whose median, MAD and bounds are missing, and
    [annotate_globals], which is given this struct as a Python value,
    raises [TypeError]. *)
Theorem outlier_metric_no_counts (mt : MatrixTable) (vs : list (option Z)) :
  metric_values mt = Ok vs →
  ((∃ mt1, cell93 mt = Ok mt1) ↔ omap id vs ≠ []) ∧
  (omap id vs = [] →
   outlier_metric mt =
     Ok (Some (VStruct [("median", None); ("mad", None); ("upper", None); ("lower", None)])) ∧
   cell93 mt = Raise (TypeError "expression")).
Proof.
  intros Hvs.
  assert (omap id vs = [] → cell93 mt = Raise (TypeError "expression")) as Hraise.
  { intros Hnil. unfold cell93, annotate_globals, annotate_struct, eval_fields. simpl.
    by rewrite (outlier_metric_missing mt vs Hvs Hnil). }
  split_and!.
  - split.
    + intros [mt1 H] Hnil. rewrite (Hraise Hnil) in H. done.
    + intros Hne. destruct (outlier_metric_complete mt vs Hvs Hne) as (x & Hx & Hc).
      unfold cell93, annotate_globals, annotate_struct, eval_fields. simpl.
      rewrite Hx. simpl. rewrite Hc. simpl. eauto.
  - intros Hnil. split; [by apply (outlier_metric_missing mt vs) | by apply Hraise].
Qed.

Lemma outlier_metric_no_counts_witness :
  ((∃ mt1, cell93 empty_mt = Ok mt1) ↔ omap id ([] : list (option Z)) ≠ []) ∧
  (omap id ([] : list (option Z)) = [] →
   outlier_metric empty_mt =
     Ok (Some (VStruct [("median", None); ("mad", None); ("upper", None); ("lower", None)])) ∧
   cell93 empty_mt = Raise (TypeError "expression")).
Proof. by apply (outlier_metric_no_counts empty_mt []). Defined.

(** ** The sex flags of cell 62 and the second sample filter of cell 67 *)

Lemma aneuploid_expr (x : float64) :
  fge x (FNum (5 # 10)) || (fge x (FNum (4 # 10)) && fle x (FNum (6 # 10)))
  = fge x (FNum (4 # 10)).
Proof.
  destruct x as [q| | |]; try done. unfold fge, fle, fcmp.
  destruct (5 # 10 ?= q)%Q eqn:H5; destruct (4 # 10 ?= q)%Q eqn:H4;
    destruct (q ?= 6 # 10)%Q eqn:H6; try done;
    rewrite <- ?Qeq_alt, <- ?Qlt_alt, <- ?Qgt_alt in *; exfalso; lra.
Qed.

(** What cell 62 leaves in a column. *)
Lemma cell62_col (mt mt1 : MatrixTable) (c : struct) :
  cell62 mt = Ok mt1 → c ∈ cols mt1 →
  ∃ f, f_stat c = Ok f ∧
       c !! "aneuploid" =
         Some (Some (VBool (match f with
                            | None => true
                            | Some x => fge x (FNum (4 # 10))
                            end))) ∧
       c !! "sex_aneuploidy" = Some (vbool (lift2 flt f (lit (4 # 10)))).
Proof.
  unfold cell62, annotate_cols. intros H Hc.
  apply bind_Ok in H as (cs & Hcs & [= <-]). simpl in Hc.
  apply mapM_Ok in Hcs. apply list_elem_of_lookup in Hc as [i Hi].
  destruct (Forall2_lookup_r _ _ _ _ _ Hcs Hi) as (c0 & _ & Hc0).
  unfold annotate_struct, eval_fields in Hc0. simpl in Hc0.
  destruct (f_stat c0) as [f|e] eqn:Hf; [|done].
  assert (f_stat c = Ok f ∧
          c = <["aneuploid" := Some (VBool (match f with
                                            | None => true
                                            | Some x => fge x (FNum (4 # 10))
                                            end))]>
                (<["sex_aneuploidy" := vbool (lift2 flt f (lit (4 # 10)))]> c0))
    as [Hfc ->].
  { destruct f as [x|]; simpl in Hc0.
    - rewrite <- (aneuploid_expr x).
      destruct (fge x (FNum (5 # 10))) eqn:H5; simpl in Hc0;
        [|destruct (fge x (FNum (4 # 10))) eqn:H4; simpl in Hc0;
          [destruct (fle x (FNum (6 # 10))) eqn:H6; simpl in Hc0|]];
        injection Hc0 as <-;
        (split; [|done]); unfold f_stat, getattr in *;
        rewrite !lookup_insert_ne by done; done.
    - injection Hc0 as <-. split; [|done]. unfold f_stat, getattr in *.
      rewrite !lookup_insert_ne by done. done. }
  exists f. split_and!; [done| |].
  - by rewrite lookup_insert_eq.
  - rewrite lookup_insert_ne by done. by rewrite lookup_insert_eq.
Qed.

(** X4: after cell 62 the flag [aneuploid] is never missing: it is true
    when [f_stat] is missing or at least 0.4 (the three comparisons of the
    cell amount to this one), and [sex_aneuploidy] is [f_stat < 0.4],
    missing when [f_stat] is; so for an [f_stat] that is a number exactly
    one of the two flags is true. *)
Theorem cell62_flags (mt mt1 : MatrixTable) (c : struct) :
  cell62 mt = Ok mt1 → c ∈ cols mt1 →
  ∃ f aneuploid,
    f_stat c = Ok f ∧
    getattr c "aneuploid" = Ok (Some (VBool aneuploid)) ∧
    getattr c "sex_aneuploidy" = Ok (vbool (lift2 flt f (lit (4 # 10)))) ∧
    (aneuploid = true ↔ f = None ∨ ∃ x, f = Some x ∧ fge x (FNum (4 # 10)) = true) ∧
    (∀ q, f = Some (FNum q) → aneuploid = negb (flt (FNum q) (FNum (4 # 10)))).
Proof.
  intros H Hc. destruct (cell62_col _ _ _ H Hc) as (f & Hf & Ha & Hs).
  eexists f, _. unfold getattr. rewrite Ha, Hs. split_and!; [done..| |].
  - destruct f as [x|]; split; eauto.
    + intros [?|(y & [= <-] & ?)]; done.
  - intros q ->. unfold fge, fle, flt, fcmp.
    rewrite <- (Qcompare_antisym q (4 # 10)). by destruct (q ?= 4 # 10)%Q.
Qed.

Lemma cell62_flags_witness :
  ∃ f aneuploid,
    f_stat (default ∅ (cols (result (cell62 sample_qc_mt)) !! 0%nat)) = Ok f ∧
    getattr (default ∅ (cols (result (cell62 sample_qc_mt)) !! 0%nat)) "aneuploid"
      = Ok (Some (VBool aneuploid)) ∧
    getattr (default ∅ (cols (result (cell62 sample_qc_mt)) !! 0%nat)) "sex_aneuploidy"
      = Ok (vbool (lift2 flt f (lit (4 # 10)))) ∧
    (aneuploid = true ↔ f = None ∨ ∃ x, f = Some x ∧ fge x (FNum (4 # 10)) = true) ∧
    (∀ q, f = Some (FNum q) → aneuploid = negb (flt (FNum q) (FNum (4 # 10)))).
Proof.
  apply (cell62_flags sample_qc_mt (result (cell62 sample_qc_mt))).
  - vm_compute; reflexivity.
  - apply list_elem_of_lookup. exists 0%nat. vm_compute; reflexivity.
Defined.

Lemma cell67_kept (g c : struct) :
  kept (λ c,
          hl_and (hl_and (let* cr := call_rate c in Ok (lift2 fge cr (lit (97 # 100))))
                         (let* dp := dp_stats_mean c in Ok (lift2 fgt dp (lit 20))))
                 (let* v := getattr c "aneuploid" in Ok (hl_is_defined v))) true c = true ↔
  (∃ cr, call_rate c = Ok (Some cr) ∧ fge cr (FNum (97 # 100)) = true) ∧
  (∃ dp, dp_stats_mean c = Ok (Some dp) ∧ fgt dp (FNum 20) = true) ∧
  (∃ v, getattr c "aneuploid" = Ok (Some v)).
Proof.
  rewrite kept_true, !hl_and_true. unfold lit.
  rewrite (compare_lit_true (call_rate c) fge), (compare_lit_true (dp_stats_mean c) fgt),
    (is_defined_true (getattr c "aneuploid")). tauto.
Qed.

(** X5: run on the columns that cell 62 has annotated, the filter of cell
    67 keeps exactly the samples with a call rate of at least 0.97 and a
    mean depth above 20: its third condition, [hl.is_defined(mt.aneuploid)],
    holds for every sample, so the imputed sex plays no part. *)
Theorem cell67_ignores_sex (mt mt1 mt2 : MatrixTable) :
  cell62 mt = Ok mt1 →
  cell67 mt1 = Ok mt2 →
  ∀ c, c ∈ cols mt2 ↔
       c ∈ cols mt1 ∧
       ∃ cr dp, call_rate c = Ok (Some cr) ∧ fge cr (FNum (97 # 100)) = true ∧
                dp_stats_mean c = Ok (Some dp) ∧ fgt dp (FNum 20) = true.
Proof.
  intros H1 H2 c. apply filter_cols_Ok in H2 as (_ & -> & _).
  rewrite list_elem_of_filter, (cell67_kept (globals mt1)). split.
  - intros [((cr & ? & ?) & (dp & ? & ?) & _) Hc]. eauto 10.
  - intros [Hc (cr & dp & ? & ? & ? & ?)]. split; [|done]. split_and!; eauto.
    destruct (cell62_col _ _ _ H1 Hc) as (f & _ & Ha & _).
    unfold getattr. rewrite Ha. eauto.
Qed.

Lemma cell67_ignores_sex_witness :
  cell62 sample_qc_mt = Ok (result (cell62 sample_qc_mt)) ∧
  ∀ c, c ∈ cols (result (cell67 (result (cell62 sample_qc_mt)))) ↔
       c ∈ cols (result (cell62 sample_qc_mt)) ∧
       ∃ cr dp, call_rate c = Ok (Some cr) ∧ fge cr (FNum (97 # 100)) = true ∧
                dp_stats_mean c = Ok (Some dp) ∧ fgt dp (FNum 20) = true.
Proof.
  split; [vm_compute; reflexivity|].
  apply (cell67_ignores_sex sample_qc_mt); vm_compute; reflexivity.
Defined.

Lemma mapM_all_kept {A} (p : A → res (option bool)) (keep : bool) (l : list A) :
  (∀ x, x ∈ l → p x = Ok (Some keep)) →
  mapM (λ x, res_map (retain keep) (p x)) l = Ok (replicate (length l) true).
Proof.
  induction l as [|x l IH]; intros Hall; [done|]. simpl.
  rewrite (Hall x) by apply list_elem_of_here. simpl.
  rewrite IH by (intros y Hy; apply Hall; by apply list_elem_of_further).
  simpl. by rewrite bool_decide_eq_true_2.
Qed.

Lemma select_all {A} (l : list A) (n : nat) :
  (length l ≤ n)%nat → select (replicate n true) l = l.
Proof.
  revert n. induction l as [|x l IH]; intros [|n] Hn; simpl in *; try done; try lia.
  f_equal. apply IH. lia.
Qed.

(** X6: after cells 62 and 65, cell 67 returns and removes no sample: its
    conditions on call rate and depth are those of cell 65, and its third
    condition always holds. *)
Theorem cell67_after_cell65 (mt mt1 mt2 : MatrixTable) :
  cell62 mt = Ok mt1 →
  cell65 mt1 = Ok mt2 →
  ∃ mt3, cell67 mt2 = Ok mt3 ∧ cols mt3 = cols mt2 ∧ globals mt3 = globals mt2.
Proof.
  intros H1 H2.
  assert (∀ c, c ∈ cols mt2 →
            hl_and (hl_and (let* cr := call_rate c in Ok (lift2 fge cr (lit (97 # 100))))
                           (let* dp := dp_stats_mean c in Ok (lift2 fgt dp (lit 20))))
                   (let* v := getattr c "aneuploid" in Ok (hl_is_defined v))
            = Ok (Some true)) as Hall.
  { intros c Hc. apply filter_cols_Ok in H2 as (_ & H2 & _). rewrite H2 in Hc.
    apply list_elem_of_filter in Hc as [Hk Hc].
    apply kept_true in Hk. rewrite !hl_and_true in Hk. destruct Hk as [[Hcr Hdp] _].
    rewrite !hl_and_true. split_and!; [done..|].
    destruct (cell62_col _ _ _ H1 Hc) as (f & _ & Ha & _).
    apply is_defined_true. unfold getattr. rewrite Ha. eauto. }
  unfold cell67, filter_cols.
  rewrite (mapM_all_kept _ true (cols mt2) Hall). simpl.
  eexists. split; [reflexivity|]. simpl. split; [|done]. by apply select_all.
Qed.

Lemma cell67_after_cell65_witness :
  ∃ mt3, cell67 (result (cell65 (result (cell62 sample_qc_mt)))) = Ok mt3 ∧
         cols mt3 = cols (result (cell65 (result (cell62 sample_qc_mt)))) ∧
         globals mt3 = globals (result (cell65 (result (cell62 sample_qc_mt)))).
Proof.
  apply (cell67_after_cell65 sample_qc_mt (result (cell62 sample_qc_mt)));
    vm_compute; reflexivity.
Defined.

(** ** Variant QC: low-complexity regions and the allele-frequency filter *)

Section LowComplexity.
Variable LCR_intervals : option val → option val.

(** X7: cells 105 and 108 together keep exactly the variants whose locus
    finds no interval in [LCR_intervals]; the flag [in_LCR] is never
    missing, so no variant is removed for a missing flag. *)
Theorem lcr_filter_retains (mt mt1 mt2 : MatrixTable) :
  cell105 LCR_intervals mt = Ok mt1 →
  cell108 mt1 = Ok mt2 →
  (∀ r, r ∈ rows mt1 → ∃ b, row_fields r !! "in_LCR" = Some (Some (VBool b))) ∧
  (∀ r, r ∈ rows mt2 ↔
        r ∈ rows mt1 ∧
        ∃ l, getattr (row_fields r) "locus" = Ok l ∧ LCR_intervals l = None).
Proof.
  intros H1 H2.
  assert (∀ r, r ∈ rows mt1 →
            ∃ l, getattr (row_fields r) "locus" = Ok l ∧
                 row_fields r !! "in_LCR" =
                   Some (Some (VBool (bool_decide (is_Some (LCR_intervals l)))))) as Hflag.
  { intros r Hr. destruct (annotate_rows_elem _ _ _ _ H1 Hr) as (r0 & _ & _ & Hf).
    apply annotate_struct_one in Hf as (v & Hv & ->). simpl in Hv.
    apply bind_Ok in Hv as (l & Hl & [= <-]). exists l.
    unfold getattr in *. rewrite lookup_insert_ne by done.
    rewrite lookup_insert_eq. done. }
  split.
  - intros r Hr. destruct (Hflag r Hr) as (l & _ & ->). eauto.
  - intros r. apply filter_rows_Ok in H2 as (_ & _ & ->).
    rewrite list_elem_of_filter, kept_true. split.
    + intros [Hk Hr]. split; [done|]. destruct (Hflag r Hr) as (l & Hl & Hin).
      exists l. split; [done|]. unfold getattr in Hk. rewrite Hin in Hk. simpl in Hk.
      injection Hk as Hk. apply bool_decide_eq_false in Hk.
      destruct (LCR_intervals l); [|done]. exfalso. eauto.
    + intros [Hr (l & Hl & Hnone)]. split; [|done].
      destruct (Hflag r Hr) as (l' & Hl' & Hin). rewrite Hl in Hl'.
      injection Hl' as <-. unfold getattr. rewrite Hin. simpl. do 2 f_equal.
      apply bool_decide_eq_false. rewrite Hnone. by intros [? ?].
Qed.
End LowComplexity.

Lemma lcr_filter_retains_witness :
  let mt1 := result (cell105 ex_LCR_at_200 vqsr_mt) in
  let mt2 := result (cell108 mt1) in
  (∀ r, r ∈ rows mt1 → ∃ b, row_fields r !! "in_LCR" = Some (Some (VBool b))) ∧
  (∀ r, r ∈ rows mt2 ↔
        r ∈ rows mt1 ∧
        ∃ l, getattr (row_fields r) "locus" = Ok l ∧ ex_LCR_at_200 l = None).
Proof.
  intros mt1 mt2.
  apply (lcr_filter_retains ex_LCR_at_200 vqsr_mt mt1 mt2); vm_compute; reflexivity.
Defined.

Lemma annotate_rows_lack kw mt mt' (f : string) :
  annotate_rows kw mt = Ok mt' → f ∉ kw.*1 → rows_lack f mt → rows_lack f mt'.
Proof.
  intros H Hf Hlack r' Hr'.
  destruct (annotate_rows_elem _ _ _ _ H Hr') as (r & Hr & _ & Hs).
  apply annotate_struct_agree in Hs. rewrite (Hs f Hf). by apply Hlack.
Qed.

Lemma filter_rows_lack p keep mt mt' (f : string) :
  filter_rows p keep mt = Ok mt' → rows_lack f mt → rows_lack f mt'.
Proof.
  intros H Hlack r Hr. apply filter_rows_Ok in H as (_ & _ & H). rewrite H in Hr.
  apply list_elem_of_filter in Hr as [_ Hr]. by apply Hlack.
Qed.

Section AlleleFrequencyFilter.
Variable variant_qc_of : MatrixTable → Row → res (option val).
Variable LCR_intervals : option val → option val.

(** X8: cell 115 reads [mt.qc], a field that no cell writes ([hl.variant_qc]
    writes [variant_qc]): when the rows that come in have no field [qc],
    the variant-QC cells 99 to 113 leave them without it, and cell 115
    raises the lookup error as soon as a variant is left to filter. *)
Theorem cell115_raises (mt mt' : MatrixTable) :
  rows_lack "qc" mt →
  run [cell99 variant_qc_of; cell102; cell105 LCR_intervals; cell108; cell110; cell113] mt
    = Ok mt' →
  rows mt' ≠ [] →
  cell115 mt' = Raise (LookupError "qc").
Proof.
  intros Hlack Hrun Hne.
  assert (rows_lack "qc" mt') as Hlack'.
  { rewrite run_cons in Hrun. apply bind_Ok in Hrun as (m1 & H1 & Hrun).
    rewrite run_cons in Hrun. apply bind_Ok in Hrun as (m2 & H2 & Hrun).
    rewrite run_cons in Hrun. apply bind_Ok in Hrun as (m3 & H3 & Hrun).
    rewrite run_cons in Hrun. apply bind_Ok in Hrun as (m4 & H4 & Hrun).
    rewrite run_cons in Hrun. apply bind_Ok in Hrun as (m5 & H5 & Hrun).
    rewrite run_cons in Hrun. apply bind_Ok in Hrun as (m6 & H6 & [= <-]).
    eapply filter_rows_lack; [exact H6|].
    eapply annotate_rows_lack; [exact H5|by apply not_elem_of_cons; split; [|apply not_elem_of_nil]|].
    eapply filter_rows_lack; [exact H4|].
    eapply annotate_rows_lack; [exact H3|by apply not_elem_of_cons; split; [|apply not_elem_of_nil]|].
    eapply annotate_rows_lack; [exact H2|by apply not_elem_of_cons; split; [|apply not_elem_of_nil]|].
    eapply annotate_rows_lack; [exact H1|by apply not_elem_of_cons; split; [|apply not_elem_of_nil]|].
    done. }
  destruct (rows mt') as [|r rs] eqn:Hrows; [done|].
  assert (row_fields r !! "qc" = None) as Hr.
  { apply Hlack'. rewrite Hrows. apply list_elem_of_here. }
  unfold cell115, filter_rows. rewrite Hrows. simpl.
  unfold qc_AF0, getattr. by rewrite Hr.
Qed.
End AlleleFrequencyFilter.

Lemma cell115_raises_witness :
  cell115 (result (run [cell99 ex_variant_qc_of; cell102; cell105 ex_LCR_intervals;
                        cell108; cell110; cell113] vqsr_mt))
  = Raise (LookupError "qc").
Proof.
  apply (cell115_raises ex_variant_qc_of ex_LCR_intervals vqsr_mt).
  - intros r Hr. repeat (apply elem_of_cons in Hr as [->|Hr]);
      [vm_compute; reflexivity..|by apply elem_of_nil in Hr].
  - vm_compute; reflexivity.
  - vm_compute. discriminate.
Defined.

(** ** Genotype QC: what cells 117 and 119 need from an entry *)

(** Where an entry of a rectangular matrix table goes in [map_entries]. *)
Lemma map_entries_forward f mt mt' r e :
  rectangular mt → map_entries f mt = Ok mt' →
  r ∈ rows mt → e ∈ row_entries r →
  ∃ c e', c ∈ cols mt ∧ f (globals mt) (row_fields r) c e = Ok e'.
Proof.
  intros Hwf H Hr He. apply map_entries_Ok in H as (_ & _ & H).
  apply list_elem_of_lookup in Hr as [i Hi].
  destruct (Forall2_lookup_l _ _ _ _ _ H Hi) as (r' & _ & _ & Hes).
  eapply Forall_lookup_1 in Hwf; [|exact Hi]. simpl in Hwf.
  apply list_elem_of_lookup in He as [j Hj].
  destruct (lookup_lt_is_Some_2 (cols mt) j) as [c Hc].
  { rewrite <- Hwf. by eapply lookup_lt_Some. }
  assert (zip (cols mt) (row_entries r) !! j = Some (c, e)) as Hz.
  { apply lookup_zip_with_Some. eauto. }
  destruct (Forall2_lookup_l _ _ _ _ _ Hes Hz) as (e' & _ & He').
  exists c, e'. split; [apply list_elem_of_lookup; eauto | done].
Qed.

(** X9: cell 117 indexes [AD] at 1, and the aggregate of cell 118 is the
    first to evaluate it: cells 117 and 118 together return only if, in
    every entry that is not filtered, [AD] is missing or is an array of at
    least two elements. *)
Theorem cell118_needs_two_depths (mt : MatrixTable) (fraction : option float64) :
  rectangular mt →
  cell117 mt >>= fraction_filtered = Ok fraction →
  ∀ r e, r ∈ rows mt → Some e ∈ row_entries r →
    e !! "AD" = Some None ∨ ∃ l, e !! "AD" = Some (Some (VArray l)) ∧ (2 ≤ length l)%nat.
Proof.
  intros Hwf H r e Hr He. apply bind_Ok in H as (mt' & H & _).
  destruct (map_entries_forward _ _ _ _ _ Hwf H Hr He) as (c & e' & _ & Hf).
  simpl in Hf. apply res_map_Ok in Hf as (e1 & Hf & _).
  apply annotate_struct_one in Hf as (v & Hv & _). simpl in Hv.
  apply res_map_Ok in Hv as (ab & Hab & _).
  unfold allele_balance, getattr in Hab.
  destruct (e !! "AD") as [ad|]; [|done]. simpl in Hab.
  apply bind_Ok in Hab as (alt & Halt & _).
  apply bind_Ok in Halt as (x & Hx & _). unfold hl_index in Hx.
  destruct ad as [[]|]; try done; [|by left]. right. simpl in Hx.
  destruct (l !! 1%nat) eqn:Hl; [|done].
  apply lookup_lt_Some in Hl. exists l. split; [done|lia].
Qed.

Lemma cell118_needs_two_depths_witness :
  rectangular genotype_mt ∧
  ∀ r e, r ∈ rows genotype_mt → Some e ∈ row_entries r →
    e !! "AD" = Some None ∨ ∃ l, e !! "AD" = Some (Some (VArray l)) ∧ (2 ≤ length l)%nat.
Proof.
  split; [repeat constructor|].
  apply (cell118_needs_two_depths genotype_mt (Some (FNum (1 # 2)))).
  - repeat constructor.
  - vm_compute; reflexivity.
Defined.

(** With an array of one depth the aggregate of cell 118 raises the index
    error. *)
Lemma cell118_index_error :
  cell117 {| globals := ∅; cols := [mk_struct [("s", Some (VStr "a"))]];
             rows := [ex_row 100 ["A"; "C"] (Some []) [ex_entry [0; 0]%nat [7] 7 30]] |}
  >>= fraction_filtered
  = Raise (IndexError 1 1).
Proof. vm_compute; reflexivity. Qed.

(** X10: an entry that cell 119 retains, with [AB] from cell 117, has a
    call, a genotype quality of at least 20, and reads: [AD[1]] and the sum
    of [AD] are defined and not both zero (an entry without reads has
    [AB = NaN], which fails every comparison). *)
Theorem genotype_filter_needs_reads (mt0 mt1 mt2 : MatrixTable) :
  cell117 mt0 = Ok mt1 →
  cell119 mt1 = Ok mt2 →
  ∀ r e, r ∈ rows mt2 → Some e ∈ row_entries r →
    ∃ gt gq ad alt total,
      GT e = Ok (Some gt) ∧
      GQ e = Ok (Some gq) ∧ 20 ≤ gq ∧
      getattr e "AD" = Ok ad ∧
      hl_index ad 1 >>= as_int = Ok (Some alt) ∧
      hl_sum_int32 ad = Ok (Some total) ∧
      ¬ (alt = 0 ∧ total = 0).
Proof.
  intros H1 H2 r2 e Hr2 He.
  destruct (filter_entries_kept _ _ _ _ _ _ H2 Hr2 He) as (r1 & c & Hr1 & _ & He1 & _ & Hp).
  apply hl_and_true in Hp as [Hq Hp]. apply hl_and_true in Hq as [Hq _].
  apply (compare_lit_true (GQ e) Z.geb) in Hq as (gq & Hgq & Hge).
  apply filter_condition_ab_true in Hp as (gt & ab & Hgt & Hab & Hcond).
  destruct (cell117_entry _ _ _ _ H1 Hr1 He1) as (ab' & Hbal & HAB).
  assert (ab' = Some ab) as ->.
  { unfold AB, getattr in Hab. rewrite HAB in Hab. simpl in Hab.
    destruct ab' as [x|]; simpl in Hab; congruence. }
  unfold allele_balance in Hbal.
  apply bind_Ok in Hbal as (ad & Had & Hbal).
  apply bind_Ok in Hbal as (alt & Halt & Hbal).
  apply bind_Ok in Hbal as (total & Htotal & [= Hbal]).
  destruct alt as [alt|], total as [total|]; try done. simpl in Hbal. injection Hbal as <-.
  exists gt, gq, ad, alt, total. split_and!; try done.
  - apply Z.geb_le in Hge. lia.
  - intros [-> ->]. vm_compute in Hcond.
    destruct Hcond as [[_ ?]|[(_ & ? & _)|[_ ?]]]; done.
Qed.

Lemma genotype_filter_needs_reads_witness :
  cell117 genotype_mt = Ok (result (cell117 genotype_mt)) ∧
  ∀ r e, r ∈ rows (result (cell119 (result (cell117 genotype_mt)))) →
         Some e ∈ row_entries r →
    ∃ gt gq ad alt total,
      GT e = Ok (Some gt) ∧
      GQ e = Ok (Some gq) ∧ 20 ≤ gq ∧
      getattr e "AD" = Ok ad ∧
      hl_index ad 1 >>= as_int = Ok (Some alt) ∧
      hl_sum_int32 ad = Ok (Some total) ∧
      ¬ (alt = 0 ∧ total = 0).
Proof.
  split; [vm_compute; reflexivity|].
  apply (genotype_filter_needs_reads genotype_mt (result (cell117 genotype_mt)));
    vm_compute; reflexivity.
Defined.

(** ** Relatedness: the pairs, and who is removed *)

Lemma relatedness_filter_prunes_witness :
  fge (FNum (11 # 100)) (FNum (1 # 10)) = true ∧
  ¬ (ex_sample "a" 1 30 10 (Some true)
       ∈ cols (result (relatedness_filter ex_pca (ex_kin (11 # 100)) related_mt)) ∧
     ex_sample "b" 1 30 10 (Some false)
       ∈ cols (result (relatedness_filter ex_pca (ex_kin (11 # 100)) related_mt))).
Proof.
  split; [reflexivity|].
  apply (relatedness_filter_prunes ex_pca (ex_kin (11 # 100)) related_mt _
           (λ _, None) (λ _ _, FNum (11 # 100)) 0 1 _ _ "a" "b");
    try reflexivity; try lia; vm_compute; reflexivity.
Defined.

Lemma filter_all {A} (P : A → Prop) `{∀ x, Decision (P x)} (l : list A) :
  Forall P l → filter P l = l.
Proof.
  induction 1 as [|x l Hx _ IH]; [done|]. rewrite filter_cons_True by done. by f_equal.
Qed.

(** X11: the filter [kin > 0.088] of cell 73 removes no row of the table
    that [pc_relate] returns with [min_kinship=0.1]: the pairs of cell 74
    are the pairs with a kinship of at least 0.1. *)
Theorem cell73_removes_nothing (kin : option string → option string → float64)
    (keys : list (option string)) :
  cell73 (pc_relate kin (FNum (1 # 10)) keys) = pc_relate kin (FNum (1 # 10)) keys.
Proof.
  unfold cell73. apply filter_all. apply Forall_forall. intros r Hr.
  unfold pc_relate in Hr. apply list_elem_of_filter in Hr as [Hge _].
  by apply fge_tenth_fgt_088.
Qed.

Lemma nodes_filter (es : list edge) (P : edge → Prop) `{∀ e, Decision (P e)}
    (v : option string) :
  v ∈ nodes (filter P es) → v ∈ nodes es.
Proof.
  rewrite !nodes_incident. intros (e & [_ He]%list_elem_of_filter & Hv). eauto.
Qed.

(** Only ends of edges are removed. *)
Lemma mis_removed_nodes (fuel : nat) (es : list edge) (v : option string) :
  v ∈ mis_removed fuel es → v ∈ nodes es.
Proof.
  revert es. induction fuel as [|fuel IH]; intros es Hv; [by apply elem_of_nil in Hv|].
  simpl in Hv. destruct (max_degree_node es) as [w|] eqn:Hw; [|by apply elem_of_nil in Hv].
  apply elem_of_cons in Hv as [->|Hv].
  - by apply max_degree_node_elem.
  - apply IH in Hv. by eapply nodes_filter.
Qed.

Section Unrelated.
Variable hl_hwe_normalized_pca : MatrixTable → nat → bool → res table.
Variable pc_relate_kin :
  MatrixTable → table → res (option string → option string → float64).

(** X12: a sample all of whose pairs have a kinship estimate below 0.1 (or
    none) is retained by the relatedness filter. *)
Theorem relatedness_filter_keeps_unrelated (mt mt' : MatrixTable) (scores : table)
    (kin : option string → option string → float64)
    (keys : list (option string)) (c : struct) (k : string) :
  relatedness_filter hl_hwe_normalized_pca pc_relate_kin mt = Ok mt' →
  hl_hwe_normalized_pca mt 10 false = Ok scores →
  pc_relate_kin mt scores = Ok kin →
  mapM col_s (cols mt) = Ok keys →
  c ∈ cols mt → col_s c = Ok (Some k) →
  (∀ p, p ∈ ordered_pairs keys → p.1 = Some k ∨ p.2 = Some k →
        fge (kin p.1 p.2) (FNum (1 # 10)) = false) →
  c ∈ cols mt'.
Proof.
  intros H Hpca Hkin Hkeys Hc Hk Hlow.
  unfold relatedness_filter, cell71, cell72 in H. rewrite Hpca in H. simpl in H.
  rewrite Hkin, Hkeys in H. simpl in H.
  apply filter_cols_Ok in H as (_ & -> & _).
  apply list_elem_of_filter. split; [|done]. apply kept_true. rewrite Hk. simpl.
  do 2 f_equal. apply bool_decide_eq_false. intros [_ Hrem].
  apply mis_removed_nodes, nodes_incident in Hrem as (e & He & Hinc).
  apply list_elem_of_fmap in He as (r & -> & Hr). simpl in Hinc.
  unfold cell73 in Hr. apply list_elem_of_filter in Hr as [_ Hr].
  unfold pc_relate in Hr. apply list_elem_of_filter in Hr as [Hge Hr].
  apply list_elem_of_fmap in Hr as (p & -> & Hp). simpl in *.
  rewrite Hlow in Hge; [done..|].
  unfold incident in Hinc. simpl in Hinc.
  apply orb_true_iff in Hinc as [Hi|Hi]; apply bool_decide_eq_true in Hi; auto.
Qed.
End Unrelated.

Lemma relatedness_filter_keeps_unrelated_witness :
  ex_sample "a" 1 30 10 (Some true)
    ∈ cols (result (relatedness_filter ex_pca (ex_kin (9 # 100)) related_mt)).
Proof.
  apply (relatedness_filter_keeps_unrelated ex_pca (ex_kin (9 # 100)) related_mt _
           (λ _, None) (λ _ _, FNum (9 # 100)) [Some "a"; Some "b"] _ "a").
  - vm_compute; reflexivity.
  - reflexivity.
  - reflexivity.
  - vm_compute; reflexivity.
  - apply list_elem_of_here.
  - vm_compute; reflexivity.
  - intros p _ _. reflexivity.
Defined.

(** ** Variant QC: the second flag, its count and its removal *)

Lemma second_fail_VQSR_removal_witness :
  let mt1 := result (cell110 vqsr_mt) in
  let mt2 := result (cell113 mt1) in
  (∀ r, r ∈ rows mt1 →
     (fail_VQSR (globals mt1) r = Ok (Some true) ↔
      ∃ n, n_filters r = Ok (Some n) ∧ n ≠ 0)) ∧
  (∀ r, r ∈ rows mt2 ↔ r ∈ rows mt1 ∧ n_filters r = Ok (Some 0)).
Proof.
  intros mt1 mt2. apply (second_fail_VQSR_removal vqsr_mt mt1 mt2); vm_compute; reflexivity.
Defined.

Lemma kept_partition {A} (p : A → res (option bool)) (l : list A) :
  (length (filter (λ x, kept p true x = true) l)
   + length (filter (λ x, kept p false x = true) l) ≤ length l)%nat ∧
  ((∀ x, x ∈ l → ∃ b, p x = Ok (Some b)) →
   (length (filter (λ x, kept p true x = true) l)
    + length (filter (λ x, kept p false x = true) l) = length l)%nat).
Proof.
  induction l as [|x l [IH1 IH2]]; [done|].
  rewrite !filter_cons.
  assert (kept p true x = true → kept p false x = true → False) as Hex.
  { rewrite !kept_true. congruence. }
  split.
  - repeat case_decide; simpl; try lia. exfalso. auto.
  - intros Hall. specialize (IH2 (λ y Hy, Hall y (list_elem_of_further _ _ _ Hy))).
    destruct (Hall x (list_elem_of_here _ _)) as [b Hb].
    assert (kept p b x = true) as Hk by by apply kept_true.
    repeat case_decide; simpl; try lia; try (exfalso; auto; fail).
    destruct b; congruence.
Qed.

(** X13: the number that cell 112 prints and the number of variants that
    cell 113 keeps add up to at most the number of variants, and to exactly
    that number when no variant has a missing flag: a variant whose flag is
    missing is removed without being counted as failing. *)
Theorem fail_VQSR_count (mt1 mt2 : MatrixTable) (failing : nat) :
  count_fail_VQSR mt1 = Ok failing →
  cell113 mt1 = Ok mt2 →
  (failing + n_rows mt2 ≤ n_rows mt1)%nat ∧
  ((∀ r, r ∈ rows mt1 → ∃ b, fail_VQSR (globals mt1) r = Ok (Some b)) →
   (failing + n_rows mt2 = n_rows mt1)%nat).
Proof.
  unfold count_fail_VQSR, cell113. intros Hc H.
  apply res_map_Ok in Hc as (mt & Hc & ->).
  apply filter_rows_Ok in Hc as (_ & _ & Hc). apply filter_rows_Ok in H as (_ & _ & H).
  unfold n_rows. rewrite Hc, H. apply kept_partition.
Qed.

Lemma fail_VQSR_count_witness :
  let mt1 := result (cell110 vqsr_mt) in
  let mt2 := result (cell113 mt1) in
  (1 + n_rows mt2 ≤ n_rows mt1)%nat ∧
  ((∀ r, r ∈ rows mt1 → ∃ b, fail_VQSR (globals mt1) r = Ok (Some b)) →
   (1 + n_rows mt2 = n_rows mt1)%nat).
Proof.
  intros mt1 mt2. apply (fail_VQSR_count mt1 mt2 1); vm_compute; reflexivity.
Defined.

(** ** Matrix tables stay rectangular: at a concrete table *)

Lemma notebook_rectangular_witness :
  rectangular (result (run [cell46; cell117; cell119] genotype_mt)).
Proof.
  apply (notebook_rectangular ex_is_snp ex_min_rep ex_downcode ex_sa ex_sample_qc_of
           ex_variant_qc_of ex_impute_sex_fails ex_pca (ex_kin 0) ex_LCR_intervals
           ex_variant_qc_of ex_variant_qc_of [cell46; cell117; cell119] genotype_mt).
  - unfold notebook_steps, qc_steps. repeat constructor.
  - vm_compute; reflexivity.
  - repeat constructor.
Defined.

(** ** Splitting a table that has no multi-allelic variant (cell 28) *)

Section SplitBiallelic.
Variable min_rep : option val → string → string → option val * list (option val).
Variable downcode : nat → struct → struct.

Lemma split_row_biallelic (r : Row) (loc : option val) (ref alt : string) :
  row_fields r !! "locus" = Some loc →
  row_fields r !! "alleles" = Some (Some (VArray [Some (VStr ref); Some (VStr alt)])) →
  alt ≠ "*" →
  min_rep loc ref alt = (loc, [Some (VStr ref); Some (VStr alt)]) →
  ∃ r', split_row min_rep downcode r = Ok [r'] ∧
    row_fields r' !! "locus" = row_fields r !! "locus" ∧
    row_fields r' !! "alleles" = row_fields r !! "alleles" ∧
    row_fields r' !! "a_index" = Some (Some (VInt 1)) ∧
    row_fields r' !! "was_split" = Some (Some (VBool false)).
Proof.
  intros Hloc Hal Hstar Hmin. unfold split_row, getattr. rewrite Hal, Hloc. simpl.
  unfold split_alt. rewrite decide_False by done. rewrite Hmin. simpl.
  eexists. split; [reflexivity|]. simpl. split_and!.
  - rewrite !lookup_insert_ne by done. by rewrite lookup_insert_eq.
  - rewrite !lookup_insert_ne by done. by rewrite lookup_insert_eq.
  - by rewrite lookup_insert_ne, lookup_insert_eq.
  - by rewrite lookup_insert_eq.
Qed.

(** X14: on a matrix table in which every variant has exactly two
    alleles, the alternate one not the star allele, and is in minimal
    representation, cell 28 returns and keeps the variants as they are,
    one for one and in order, keeps the samples, and marks every variant
    as not split, with [a_index] 1. *)
Theorem cell28_keeps_biallelic (mt : MatrixTable) :
  (∀ r, r ∈ rows mt →
     ∃ loc ref alt,
       row_fields r !! "locus" = Some loc ∧
       row_fields r !! "alleles" = Some (Some (VArray [Some (VStr ref); Some (VStr alt)])) ∧
       alt ≠ "*" ∧
       min_rep loc ref alt = (loc, [Some (VStr ref); Some (VStr alt)])) →
  ∃ mt', cell28 min_rep downcode mt = Ok mt' ∧
    variants mt' = variants mt ∧
    cols mt' = cols mt ∧
    ∀ r', r' ∈ rows mt' →
      row_fields r' !! "a_index" = Some (Some (VInt 1)) ∧
      row_fields r' !! "was_split" = Some (Some (VBool false)).
Proof.
  intros Hall. unfold cell28, variants.
  assert (∃ rs, mapM (split_row min_rep downcode) (rows mt) = Ok ((λ r, [r]) <$> rs) ∧
            (λ r, (row_fields r !! "locus", row_fields r !! "alleles")) <$> rs
            = (λ r, (row_fields r !! "locus", row_fields r !! "alleles")) <$> rows mt ∧
            Forall (λ r', row_fields r' !! "a_index" = Some (Some (VInt 1)) ∧
                          row_fields r' !! "was_split" = Some (Some (VBool false))) rs)
    as (rs & Hrs & Hv & Hflags).
  { induction (rows mt) as [|r l IH]; [by exists []|].
    destruct IH as (rs & Hrs & Hv & Hflags).
    { intros r' Hr'. apply Hall. by apply list_elem_of_further. }
    destruct (Hall r (list_elem_of_here _ _)) as (loc & ref & alt & Hloc & Hal & Hstar & Hmin).
    destruct (split_row_biallelic r loc ref alt Hloc Hal Hstar Hmin)
      as (r' & Hr' & Hl & Ha & Hi & Hs).
    exists (r' :: rs). split_and!.
    - simpl. by rewrite Hr', Hrs.
    - rewrite !fmap_cons. by rewrite Hl, Ha, Hv.
    - by constructor. }
  assert (mjoin ((λ r : Row, [r]) <$> rs) = rs) as Hjoin.
  { clear. induction rs as [|r rs IH]; [done|]. simpl. f_equal. exact IH. }
  exists {| globals := globals mt; cols := cols mt; rows := rs |}.
  rewrite Hrs. unfold bind. rewrite Hjoin. simpl.
  split_and!; [done..|]. intros r' Hr'. by eapply Forall_forall in Hflags.
Qed.
End SplitBiallelic.

Lemma cell28_keeps_biallelic_witness :
  ∃ mt', cell28 ex_min_rep ex_downcode vcf_mt = Ok mt' ∧
    variants mt' = variants vcf_mt ∧
    cols mt' = cols vcf_mt ∧
    ∀ r', r' ∈ rows mt' →
      row_fields r' !! "a_index" = Some (Some (VInt 1)) ∧
      row_fields r' !! "was_split" = Some (Some (VBool false)).
Proof.
  apply (cell28_keeps_biallelic ex_min_rep ex_downcode vcf_mt).
  intros r Hr. apply elem_of_cons in Hr as [->|Hr].
  { exists (Some (VLocus "1" 100)), "A", "C".
    split_and!; [vm_compute; reflexivity | vm_compute; reflexivity | done | reflexivity]. }
  apply elem_of_cons in Hr as [->|Hr]; [|by apply elem_of_nil in Hr].
  exists (Some (VLocus "1" 200)), "G", "GT".
  split_and!; [vm_compute; reflexivity | vm_compute; reflexivity | done | reflexivity].
Defined.

(** A variant of two alleles whose alternate allele is the star allele is
    dropped by cell 28, and so is a variant without an alternate allele. *)
Lemma cell28_drops_star :
  res_map variants
    (cell28 ex_min_rep ex_downcode
       {| globals := ∅; cols := [];
          rows := [ex_row 100 ["A"; "*"] (Some []) []; ex_row 200 ["G"] (Some []) [];
                   ex_row 300 ["C"; "T"] (Some []) []] |})
  = Ok [(Some (Some (VLocus "1" 300)), Some (Some (VArray [Some (VStr "C"); Some (VStr "T")])))].
Proof. vm_compute; reflexivity. Qed.

(** ** The variants given to sex imputation carry an alternate allele (cell 53) *)

Lemma sum_pos_elem (l : list Z) :
  0 < foldr Z.add 0 l → ∃ x, x ∈ l ∧ 0 < x.
Proof.
  induction l as [|x l IH]; simpl; [lia|]. intros H.
  destruct (Z_lt_le_dec 0 x) as [Hx|Hx].
  - exists x. split; [apply list_elem_of_here | done].
  - destruct IH as (y & Hy & ?); [lia|]. exists y. split; [by apply list_elem_of_further | done].
Qed.

Lemma agg_mean_pos (xs : list (option Z)) :
  fgt (fdiv (agg_mean xs) (float_of_Z 2)) (FNum (1 # 1000)) = true →
  0 < foldr Z.add 0 (omap id xs).
Proof.
  unfold agg_mean, float_of_Z. generalize (omap id xs). intros d.
  destruct d as [|x d]; [done|].
  set (s := foldr Z.add 0 (x :: d)). set (n := Z.of_nat (length (x :: d))).
  assert (0 < n) as Hn by (unfold n; simpl; lia).
  unfold fdiv at 2. destruct (Qeq_bool (inject_Z n) 0) eqn:Hz.
  { apply Qeq_bool_iff in Hz. unfold Qeq in Hz. simpl in Hz. lia. }
  unfold fdiv. replace (Qeq_bool (inject_Z 2) 0) with false by done.
  unfold fgt, flt, fcmp. destruct (_ ?= _)%Q eqn:Hc; try done. intros _.
  apply Qlt_alt in Hc.
  destruct (Z_lt_le_dec 0 s) as [|Hs]; [done|]. exfalso.
  assert (inject_Z s * (/ inject_Z n * / inject_Z 2)
          <= 0 * (/ inject_Z n * / inject_Z 2))%Q as Hle.
  { apply Qmult_le_compat_r.
    - unfold Qle. simpl. lia.
    - apply Qmult_le_0_compat; apply Qinv_le_0_compat; unfold Qle; simpl; lia. }
  assert (0 < 1 # 1000)%Q by done. unfold Qdiv in Hc. lra.
Qed.

Section SexImputationCalls.
Variable is_snp : string → string → bool.

(** X15: every variant that cell 53 keeps for sex imputation has at least
    one sample with a called genotype that carries an alternate allele; in
    particular a variant without any called genotype, for which the mean
    is [0 / 0], is removed. *)
Theorem sex_qc_needs_alt_call (mt0 mt : MatrixTable) :
  cell53 is_snp mt0 = Ok mt →
  ∀ r, r ∈ rows mt →
    ∃ gts gt, row_GTs r = Ok gts ∧ Some gt ∈ gts ∧ 0 < n_alt_alleles gt.
Proof.
  intros H r Hr.
  apply filter_rows_Ok in H as (_ & _ & H). rewrite H in Hr.
  apply list_elem_of_filter in Hr as [Hr _].
  apply kept_true in Hr. apply sex_qc_filter_true in Hr as (_ & _ & (f & Hf & Hgt) & _).
  unfold mean_alt_freq in Hf. apply bind_Ok in Hf as (gts & Hgts & [= <-]).
  apply agg_mean_pos, sum_pos_elem in Hgt as (x & Hx & Hpos).
  apply list_elem_of_omap in Hx as (o & Ho & Hox). unfold id in Hox. subst o.
  apply list_elem_of_fmap in Ho as ([gt|] & Hgt & Hin); [|done].
  injection Hgt as ->. eauto.
Qed.
End SexImputationCalls.

Lemma sex_qc_needs_alt_call_witness :
  cell53 ex_is_snp vcf_mt = Ok (result (cell53 ex_is_snp vcf_mt)) ∧
  ∀ r, r ∈ rows (result (cell53 ex_is_snp vcf_mt)) →
    ∃ gts gt, row_GTs r = Ok gts ∧ Some gt ∈ gts ∧ 0 < n_alt_alleles gt.
Proof.
  split; [vm_compute; reflexivity|].
  apply (sex_qc_needs_alt_call ex_is_snp vcf_mt). vm_compute; reflexivity.
Defined.
